(** * Fourier demo: waveform generators, ASCII plotter and magnitude spectrum

    A shallow embedding of [fourier_demo.py].

    Number model.  The program computes on Python floats.  They are
    idealised here as exact numbers: rationals ([Q]) for the square and
    sawtooth generators and for the plotter, which use only field
    operations, comparisons and truncation, so that the model runs; reals
    ([R]) for the sine generator and the spectrum, which call [sin] and
    the discrete Fourier transform.  Rounding, overflow, infinities and
    NaN are outside the model.

    Exceptions are modelled by the [result] type; [print] by the list of
    the strings printed, one per call. *)

From Stdlib Require Import ZArith QArith Qround Qabs List String Ascii Bool.
From Stdlib Require Import FinFun Reals Psatz.
Import ListNotations.

Local Open Scope Q_scope.

(* ------------------------------------------------------------------ *)
(** ** Python exceptions as an error monad *)

Inductive exn : Type :=
| ValueError
| ZeroDivisionError
| IndexError.

Inductive result (A : Type) : Type :=
| Ok (a : A)
| Raise (e : exn).

Arguments Ok {A} a.
Arguments Raise {A} e.

Definition bind {A B : Type} (m : result A) (k : A -> result B) : result B :=
  match m with
  | Ok a => k a
  | Raise e => Raise e
  end.

Notation "x <- m ;; k" := (bind m (fun x => k))
  (at level 61, m at next level, right associativity).

(** A [for] loop whose body appends one element to a list. *)
Fixpoint mapM {A B : Type} (f : A -> result B) (l : list A) : result (list B) :=
  match l with
  | [] => Ok []
  | a :: l' => b <- f a ;; bs <- mapM f l' ;; Ok (b :: bs)
  end.

(* ------------------------------------------------------------------ *)
(** ** Python built-ins used by the program *)

(** [range(n)]: empty when [n <= 0]. *)
Definition range (n : Z) : list Z := map Z.of_nat (seq 0 (Z.to_nat n)).

(** [len(l)] as a Python int. *)
Definition len {A : Type} (l : list A) : Z := Z.of_nat (List.length l).

(** [x < y] and [x != y] on numbers. *)
Definition Qltb (x y : Q) : bool := (Qnum x * QDen y <? Qnum y * QDen x)%Z.
Definition Qneqb (x y : Q) : bool := negb (Qeq_bool x y).

(** [min(values)] and [max(values)]: [ValueError] on the empty list;
    otherwise the first element is kept until a strictly smaller
    (larger) one is met. *)
Definition min_from (v : Q) (vs : list Q) : Q :=
  fold_left (fun m x => if Qltb x m then x else m) vs v.

Definition max_from (v : Q) (vs : list Q) : Q :=
  fold_left (fun m x => if Qltb m x then x else m) vs v.

Definition py_min (values : list Q) : result Q :=
  match values with
  | [] => Raise ValueError
  | v :: vs => Ok (min_from v vs)
  end.

Definition py_max (values : list Q) : result Q :=
  match values with
  | [] => Raise ValueError
  | v :: vs => Ok (max_from v vs)
  end.

(** [a / b] on two ints: true division. *)
Definition int_truediv (a b : Z) : result Q :=
  if (b =? 0)%Z then Raise ZeroDivisionError else Ok (inject_Z a / inject_Z b).

(** [x / y] on two floats. *)
Definition float_div (x y : Q) : result Q :=
  if Qeq_bool y 0 then Raise ZeroDivisionError else Ok (x / y).

(** [int(x)]: truncation toward zero. *)
Definition py_int (x : Q) : Z := Z.quot (Qnum x) (QDen x).

(** [x % 1.0]: the result has the sign of the divisor, so it is
    [x - floor(x)]. *)
Definition mod_one (x : Q) : Q := x - inject_Z (Qfloor x).

(** [l[i]]: a negative index counts from the end. *)
Definition py_getitem {A : Type} (l : list A) (i : Z) : result A :=
  let j := if (i <? 0)%Z then (i + len l)%Z else i in
  if (j <? 0)%Z then Raise IndexError
  else match nth_error l (Z.to_nat j) with
       | Some a => Ok a
       | None => Raise IndexError
       end.

(** [s * n] on a string: empty when [n <= 0]. *)
Fixpoint str_repeat_nat (s : string) (n : nat) : string :=
  match n with
  | O => EmptyString
  | S n' => s ++ str_repeat_nat s n'
  end.

Definition str_repeat (s : string) (n : Z) : string :=
  str_repeat_nat s (Z.to_nat n).

(** ["".join(line)] *)
Definition join (line : list string) : string :=
  fold_right append EmptyString line.

Definition newline : string := String (ascii_of_nat 10) EmptyString.

(* ------------------------------------------------------------------ *)
(** ** The format specification [>7.2f] *)

(** Nearest integer, ties to even: the rounding of [%.2f]. *)
Definition round_half_even (q : Q) : Z :=
  let f := Qfloor q in
  match Qcompare (q - inject_Z f) (1 # 2) with
  | Lt => f
  | Gt => (f + 1)%Z
  | Eq => if Z.even f then f else (f + 1)%Z
  end.

Definition digit_char (d : Z) : ascii := ascii_of_nat (48 + Z.to_nat d).

(** Decimal digits of [n >= 0], most significant first, in front of [acc]. *)
Fixpoint digits_fuel (fuel : nat) (n : Z) (acc : string) : string :=
  match fuel with
  | O => acc
  | S fuel' =>
      let acc' := String (digit_char (n mod 10)) acc in
      if (n / 10 =? 0)%Z then acc' else digits_fuel fuel' (n / 10)%Z acc'
  end.

Definition str_of_Z (n : Z) : string :=
  digits_fuel (S (Z.to_nat (Z.log2 n))) n EmptyString.

(** [format(x, ".2f")] *)
Definition format_2f (x : Q) : string :=
  let n := round_half_even (Qabs x * 100) in
  ((if Qltb x 0 then "-" else "")
   ++ str_of_Z (n / 100)
   ++ "."
   ++ String (digit_char ((n / 10) mod 10))
        (String (digit_char (n mod 10)) EmptyString))%string.

(** Right alignment in a field of [w] characters; a longer string is kept
    whole. *)
Definition rjust (w : nat) (s : string) : string :=
  (str_repeat_nat " " (w - String.length s) ++ s)%string.

(** [f"{x:>7.2f} |"] *)
Definition fmt_label (x : Q) : string := (rjust 7 (format_2f x) ++ " |")%string.

Definition blank_label : string := "        |".

(* ------------------------------------------------------------------ *)
(** ** Waveform generators (rational part) *)

(** The phase of sample [i]: [(periods * i / num_samples) % 1.0]. *)
Definition phase (num_samples : Z) (periods : Q) (i : Z) : result Q :=
  p <- float_div (periods * inject_Z i) (inject_Z num_samples) ;;
  Ok (mod_one p).

Definition generate_square (num_samples : Z) (periods : Q) : result (list Q) :=
  mapM (fun i =>
          ph <- phase num_samples periods i ;;
          Ok (if Qltb ph (1 # 2) then 1 else -(1)))
       (range num_samples).

Definition generate_sawtooth (num_samples : Z) (periods : Q) : result (list Q) :=
  mapM (fun i =>
          ph <- phase num_samples periods i ;;
          Ok (2 * ph - 1))
       (range num_samples).

(* ------------------------------------------------------------------ *)
(** ** The ASCII plotter *)

(** [v_range]: the spread of the values, or 1.0 for a flat signal. *)
Definition value_range (v_max v_min : Q) : Q :=
  if Qneqb v_max v_min then v_max - v_min else 1.

(** The source index read for column [col]. *)
Definition resample_index (n : Z) (width col : Z) : result Z :=
  q <- int_truediv (col * n) width ;;
  Ok (Z.min (py_int q) (n - 1)).

(** The first loop: one source value per output column. *)
Definition resample (values : list Q) (width : Z) : result (list Q) :=
  mapM (fun col =>
          idx <- resample_index (len values) width col ;;
          py_getitem values idx)
       (range width).

(** The y-axis label of a row. *)
Definition row_label (v_max v_min : Q) (height row : Z) : string :=
  if (row =? 0)%Z then fmt_label v_max
  else if (row =? height - 1)%Z then fmt_label v_min
  else if (row =? height / 2)%Z then fmt_label ((v_max + v_min) / 2)
  else blank_label.

(** The continuous row position of a value. *)
Definition val_row (v_max v_range : Q) (height : Z) (val : Q) : result Q :=
  q <- float_div (v_max - val) v_range ;;
  Ok (q * inject_Z (height - 1)).

(** The character of one cell. *)
Definition cell (v_max v_range : Q) (height row : Z) (val : Q) : result string :=
  vr <- val_row v_max v_range height val ;;
  Ok (if Qltb (Qabs (vr - inject_Z row)) (1 # 2) then "*" else " ")%string.

(** The inner loop: the plot characters of one row. *)
Definition plot_line (v_max v_range : Q) (resampled : list Q)
           (width height row : Z) : result (list string) :=
  mapM (fun col =>
          val <- py_getitem resampled col ;;
          cell v_max v_range height row val)
       (range width).

(** One iteration of the row loop: the line it prints. *)
Definition draw_row (v_max v_min v_range : Q) (resampled : list Q)
           (width height row : Z) : result string :=
  t <- int_truediv row (height - 1) ;;
  let threshold := v_max - t * v_range in
  let label := row_label v_max v_min height row in
  line <- plot_line v_max v_range resampled width height row ;;
  Ok (label ++ join line)%string.

Definition title_line (title : string) : string :=
  (newline ++ "  === " ++ title ++ " ===" ++ newline)%string.

Definition axis_line (width : Z) : string :=
  ("        +" ++ str_repeat "-" width)%string.

(** The strings printed by [draw_ascii_graph], in order: the title, one
    line per row, the axis rule. *)
Definition draw_ascii_graph (values : list Q) (title : string)
           (width height : Z) : result (list string) :=
  v_min <- py_min values ;;
  v_max <- py_max values ;;
  let v_range := value_range v_max v_min in
  resampled <- resample values width ;;
  rows <- mapM (draw_row v_max v_min v_range resampled width height)
               (range height) ;;
  Ok (title_line title :: rows ++ [axis_line width]).

(** What the loops compute when no exception is raised: the index read
    for a column, the row position of a value, whether a cell is marked,
    the list of resampled values and the plot characters of a row. *)
Definition source_index (n width col : Z) : Z :=
  Z.min (col * n / width) (n - 1).

Definition resampled_values (values : list Q) (width : Z) : list Q :=
  map (fun col => nth (Z.to_nat (source_index (len values) width col)) values 0)
      (range width).

Definition row_position (v_max v_range : Q) (height : Z) (val : Q) : Q :=
  (v_max - val) / v_range * inject_Z (height - 1).

Definition marked (v_max v_range : Q) (height row : Z) (val : Q) : bool :=
  Qltb (Qabs (row_position v_max v_range height val - inject_Z row)) (1 # 2).

Definition cell_char (b : bool) : string := (if b then "*" else " ")%string.

Definition plot_cells (v_max v_range : Q) (height row : Z)
           (resampled : list Q) : list string :=
  map (fun val => cell_char (marked v_max v_range height row val)) resampled.

(** The grid of plot cells, row by row, as the row loop of
    [draw_ascii_graph] builds it before joining and labelling. *)
Definition plot_grid (values : list Q) (width height : Z)
  : result (list (list string)) :=
  v_min <- py_min values ;;
  v_max <- py_max values ;;
  let v_range := value_range v_max v_min in
  resampled <- resample values width ;;
  mapM (plot_line v_max v_range resampled width height) (range height).





(** The shape of the output: a string of plot characters, a content line
    (a 9-character label followed by [width] plot characters), and the
    whole output (title, [height] content lines, axis rule). *)
Fixpoint plot_chars (s : string) : Prop :=
  match s with
  | EmptyString => True
  | String c s' => (c = "*"%char \/ c = " "%char) /\ plot_chars s'
  end.

Definition content_line (width : nat) (line : string) : Prop :=
  exists label plot,
    line = (label ++ plot)%string /\
    String.length label = 9%nat /\
    String.length plot = width /\
    plot_chars plot.

Definition graph_shape (width height : Z) (title : string)
           (lines : list string) : Prop :=
  exists rows,
    lines = title_line title :: rows ++ [axis_line width] /\
    List.length rows = Z.to_nat height /\
    Forall (content_line (Z.to_nat width)) rows.

(** A number whose [.2f] form needs at most 7 characters. *)
Definition fits_label (x : Q) : Prop :=
  - (999995 # 1000) < x /\ x < 9999995 # 1000.

(** The call with the default geometry, [width=70, height=15]. *)
Definition draw_ascii_graph_default (values : list Q) (title : string)
  : result (list string) :=
  draw_ascii_graph values title 70 15.

(* ------------------------------------------------------------------ *)
(** ** The sine generator and the magnitude spectrum (real part) *)

Section RealPart.
Local Open Scope R_scope.

(** [math.sin(2 * math.pi * periods * i / num_samples)] for [i] in
    [range(num_samples)]. *)
Definition generate_sine (num_samples : Z) (periods : R) : result (list R) :=
  mapM (fun i =>
          if (num_samples =? 0)%Z then Raise ZeroDivisionError
          else Ok (sin (2 * PI * periods * IZR i / IZR num_samples)))
       (range num_samples).

(** Complex numbers as pairs (real part, imaginary part). *)
Definition C : Type := (R * R)%type.

Definition Cadd (a b : C) : C := (fst a + fst b, snd a + snd b).

(** [np.abs] on a complex number. *)
Definition Cabs (a : C) : R := sqrt (fst a * fst a + snd a * snd a).

(** One term of the transform: [x * exp(-2 pi i m k / n)]. *)
Definition dft_term (n k m : nat) (x : R) : C :=
  let t := 2 * PI * INR m * INR k / INR n in
  (x * cos t, - (x * sin t)).

(** The sum of the terms of bin [k], over the samples from index [m] on. *)
Fixpoint dft_sum (n k m : nat) (a : list R) : C :=
  match a with
  | [] => (0, 0)
  | x :: a' => Cadd (dft_term n k m x) (dft_sum n k (S m) a')
  end.

Definition dft_bin (a : list R) (k : nat) : C :=
  dft_sum (List.length a) k 0 a.

(** [np.fft.fft(a)] by its definition,
    [A_k = sum_m a_m * exp(-2 pi i m k / n)] for [k] in [0..n-1];
    [ValueError] on an empty input. *)
Definition fft (a : list R) : result (list C) :=
  match a with
  | [] => Raise ValueError
  | _ => Ok (map (dft_bin a) (seq 0 (List.length a)))
  end.

(** [magnitudes[1:] *= 2] *)
Definition double_tail (magnitudes : list R) : list R :=
  match magnitudes with
  | [] => []
  | m0 :: ms => m0 :: map (fun m => m * 2) ms
  end.

Definition compute_fft_magnitudes (signal : list R) : result (list R) :=
  let n := List.length signal in
  fft_result <- fft signal ;;
  let magnitudes := map (fun c => Cabs c / INR n) (firstn (n / 2) fft_result) in
  Ok (double_tail magnitudes).

(** The mean of a signal. *)
Definition sum_list (l : list R) : R := fold_right Rplus 0 l.

Definition mean (signal : list R) : R :=
  sum_list signal / INR (List.length signal).

(** The sum of [f m] for [m < n]. *)
Fixpoint Rsum (f : nat -> R) (n : nat) : R :=
  match n with
  | O => 0
  | S n' => Rsum f n' + f n'
  end.

End RealPart.

(* ------------------------------------------------------------------ *)
(** ** The peak report of [main] *)

Section PeakReport.
Local Open Scope R_scope.

(** [max(l)] on a list of floats: [ValueError] on the empty list; the
    running maximum changes only for a strictly larger element. *)
Definition Rlist_max (l : list R) : result R :=
  match l with
  | [] => Raise ValueError
  | x :: xs => Ok (fold_left (fun m y => if Rlt_dec m y then y else m) xs x)
  end.

(** [l.index(x)]: the position of the first element equal to [x],
    [ValueError] when there is none. *)
Fixpoint index_from (x : R) (l : list R) (i : nat) : result nat :=
  match l with
  | [] => Raise ValueError
  | y :: l' => if Req_EM_T y x then Ok i else index_from x l' (S i)
  end.

Definition py_index (l : list R) (x : R) : result nat := index_from x l 0.

(** The bin [main] prints as the peak frequency bin:
    [magnitudes.index(max(magnitudes[1:]))]. *)
Definition peak_bin (magnitudes : list R) : result nat :=
  m <- Rlist_max (tl magnitudes) ;;
  py_index magnitudes m.


End PeakReport.

(* ================================================================== *)
(** * Properties *)

(** ** The error monad and loops *)

Lemma mapM_pure {A B : Type} (f : A -> result B) (g : A -> B) (l : list A) :
  (forall a, In a l -> f a = Ok (g a)) -> mapM f l = Ok (map g l).
Proof.
  induction l as [|a l IH]; intros Hf; simpl.
  - reflexivity.
  - rewrite (Hf a) by (left; reflexivity). simpl.
    rewrite IH by (intros; apply Hf; right; assumption).
    reflexivity.
Qed.

Lemma range_length (n : Z) : List.length (range n) = Z.to_nat n.
Proof. unfold range. now rewrite length_map, length_seq. Qed.

Lemma in_range (n x : Z) : In x (range n) <-> (0 <= x < n)%Z.
Proof.
  unfold range. rewrite in_map_iff. split.
  - intros [i [<- Hi]]. apply in_seq in Hi. lia.
  - intros Hx. exists (Z.to_nat x). split; [lia|]. apply in_seq. lia.
Qed.

Lemma nth_error_range (n : Z) (i : nat) :
  (i < Z.to_nat n)%nat -> nth_error (range n) i = Some (Z.of_nat i).
Proof.
  intros Hi. unfold range.
  rewrite nth_error_map, nth_error_seq.
  destruct (Nat.ltb_spec i (Z.to_nat n)); [reflexivity | lia].
Qed.


(** ** Comparisons *)

Lemma Qltb_lt (x y : Q) : Qltb x y = true <-> x < y.
Proof. unfold Qltb, Qlt. apply Z.ltb_lt. Qed.

Lemma Qltb_ge (x y : Q) : Qltb x y = false <-> y <= x.
Proof. unfold Qltb, Qle. apply Z.ltb_ge. Qed.

Lemma Qneqb_false (x y : Q) : Qneqb x y = false <-> x == y.
Proof.
  unfold Qneqb. rewrite negb_false_iff. apply Qeq_bool_iff.
Qed.

Lemma Qneqb_true (x y : Q) : Qneqb x y = true <-> ~ x == y.
Proof.
  unfold Qneqb. rewrite negb_true_iff. split.
  - intros H E. apply Qeq_bool_iff in E. congruence.
  - intros H. destruct (Qeq_bool x y) eqn:E; [|reflexivity].
    apply Qeq_bool_iff in E. contradiction.
Qed.


(** ** [min] and [max] *)

Lemma min_from_spec (vs : list Q) (v : Q) :
  In (min_from v vs) (v :: vs) /\
  forall x, In x (v :: vs) -> min_from v vs <= x.
Proof.
  unfold min_from. revert v.
  induction vs as [|y vs IH]; intros v; simpl.
  - split; [left; reflexivity|]. intros x [<-|[]]. apply Qle_refl.
  - destruct (Qltb y v) eqn:E.
    + apply Qltb_lt in E. destruct (IH y) as [Hin Hle]. split.
      * right. exact Hin.
      * intros x [<-|[<-|Hx]].
        -- apply Qle_trans with y; [apply Hle; left; reflexivity|].
           apply Qlt_le_weak, E.
        -- apply Hle. left. reflexivity.
        -- apply Hle. right. exact Hx.
    + apply Qltb_ge in E. destruct (IH v) as [Hin Hle]. split.
      * destruct Hin as [Hin|Hin]; [left; exact Hin | right; right; exact Hin].
      * intros x [<-|[<-|Hx]].
        -- apply Hle. left. reflexivity.
        -- apply Qle_trans with v; [apply Hle; left; reflexivity | exact E].
        -- apply Hle. right. exact Hx.
Qed.

Lemma max_from_spec (vs : list Q) (v : Q) :
  In (max_from v vs) (v :: vs) /\
  forall x, In x (v :: vs) -> x <= max_from v vs.
Proof.
  unfold max_from. revert v.
  induction vs as [|y vs IH]; intros v; simpl.
  - split; [left; reflexivity|]. intros x [<-|[]]. apply Qle_refl.
  - destruct (Qltb v y) eqn:E.
    + apply Qltb_lt in E. destruct (IH y) as [Hin Hle]. split.
      * right. exact Hin.
      * intros x [<-|[<-|Hx]].
        -- apply Qle_trans with y; [apply Qlt_le_weak, E|].
           apply Hle. left. reflexivity.
        -- apply Hle. left. reflexivity.
        -- apply Hle. right. exact Hx.
    + apply Qltb_ge in E. destruct (IH v) as [Hin Hle]. split.
      * destruct Hin as [Hin|Hin]; [left; exact Hin | right; right; exact Hin].
      * intros x [<-|[<-|Hx]].
        -- apply Hle. left. reflexivity.
        -- apply Qle_trans with v; [exact E | apply Hle; left; reflexivity].
        -- apply Hle. right. exact Hx.
Qed.

(** ** Indexing and true division *)

Lemma py_getitem_ok {A : Type} (l : list A) (i : Z) (d : A) :
  (0 <= i < len l)%Z -> py_getitem l i = Ok (nth (Z.to_nat i) l d).
Proof.
  intros Hi. unfold py_getitem, len in *.
  destruct (Z.ltb_spec i 0); [lia|].
  destruct (Z.ltb_spec i 0); [lia|].
  rewrite (nth_error_nth' l d) by lia. reflexivity.
Qed.

Lemma py_int_truediv (a b : Z) :
  (0 <= a)%Z -> (0 < b)%Z -> py_int (inject_Z a / inject_Z b) = (a / b)%Z.
Proof.
  intros Ha Hb. unfold py_int.
  destruct b as [|p|p]; try lia.
  unfold Qdiv, Qinv, Qmult, inject_Z. simpl.
  rewrite Z.mul_1_r. rewrite Z.quot_div_nonneg by lia. reflexivity.
Qed.

Lemma source_index_bounds (n width col : Z) :
  (0 < n)%Z -> (0 < width)%Z -> (0 <= col)%Z ->
  (0 <= source_index n width col < n)%Z.
Proof.
  intros Hn Hw Hc. unfold source_index.
  assert (0 <= col * n / width)%Z by (apply Z.div_pos; nia).
  lia.
Qed.

Lemma resample_index_ok (n width col : Z) :
  (0 <= n)%Z -> (0 < width)%Z -> (0 <= col)%Z ->
  resample_index n width col = Ok (source_index n width col).
Proof.
  intros Hn Hw Hc. unfold resample_index, int_truediv, source_index.
  destruct (Z.eqb_spec width 0); [lia|]. simpl.
  rewrite py_int_truediv by nia. reflexivity.
Qed.

Lemma resample_ok (values : list Q) (width : Z) :
  values <> [] -> resample values width = Ok (resampled_values values width).
Proof.
  intros Hne. unfold resample, resampled_values.
  apply mapM_pure. intros col Hcol. apply in_range in Hcol.
  assert (0 < len values)%Z.
  { unfold len. destruct values; [congruence | simpl; lia]. }
  rewrite resample_index_ok by lia. simpl.
  apply py_getitem_ok. apply source_index_bounds; lia.
Qed.

Lemma resampled_values_length (values : list Q) (width : Z) :
  List.length (resampled_values values width) = Z.to_nat width.
Proof. unfold resampled_values. now rewrite length_map, range_length. Qed.

(** ** The rows of the plot *)

Lemma value_range_nonzero (v_max v_min : Q) : ~ value_range v_max v_min == 0.
Proof.
  unfold value_range. destruct (Qneqb v_max v_min) eqn:E.
  - apply Qneqb_true in E. intros H. apply E. lra.
  - discriminate.
Qed.

Lemma val_row_ok (v_max v_range : Q) (height : Z) (val : Q) :
  ~ v_range == 0 ->
  val_row v_max v_range height val = Ok (row_position v_max v_range height val).
Proof.
  intros Hr. unfold val_row, float_div.
  destruct (Qeq_bool v_range 0) eqn:E.
  - apply Qeq_bool_iff in E. contradiction.
  - reflexivity.
Qed.

Lemma cell_ok (v_max v_range : Q) (height row : Z) (val : Q) :
  ~ v_range == 0 ->
  cell v_max v_range height row val
  = Ok (cell_char (marked v_max v_range height row val)).
Proof.
  intros Hr. unfold cell. rewrite val_row_ok by assumption. reflexivity.
Qed.

Lemma map_nth_seq_self {A : Type} (l : list A) (d : A) :
  map (fun i => nth i l d) (seq 0 (List.length l)) = l.
Proof.
  apply nth_error_ext. intros i.
  rewrite nth_error_map, nth_error_seq.
  destruct (Nat.ltb_spec i (List.length l)) as [Hi|Hi]; simpl.
  - symmetry. apply nth_error_nth'. exact Hi.
  - symmetry. apply nth_error_None. exact Hi.
Qed.

Lemma map_nth_range {A : Type} (l : list A) (d : A) :
  map (fun col => nth (Z.to_nat col) l d) (range (len l)) = l.
Proof.
  unfold range, len. rewrite map_map, Nat2Z.id.
  etransitivity; [|apply (map_nth_seq_self l d)].
  apply map_ext. intros i. now rewrite Nat2Z.id.
Qed.

Lemma plot_line_ok (v_max v_range : Q) (resampled : list Q)
      (width height row : Z) :
  ~ v_range == 0 ->
  List.length resampled = Z.to_nat width ->
  plot_line v_max v_range resampled width height row
  = Ok (plot_cells v_max v_range height row resampled).
Proof.
  intros Hr Hlen. unfold plot_line, plot_cells.
  assert (Hw : range (len resampled) = range width).
  { unfold range, len. now rewrite Nat2Z.id, Hlen. }
  pose proof (map_nth_range resampled 0) as Hnth. rewrite Hw in Hnth.
  set (f := fun val => cell_char (marked v_max v_range height row val)).
  assert (E : map f resampled
              = map (fun col => f (nth (Z.to_nat col) resampled 0)) (range width)).
  { transitivity
      (map f (map (fun col => nth (Z.to_nat col) resampled 0) (range width))).
    - now rewrite Hnth.
    - apply map_map. }
  rewrite E. subst f.
  apply mapM_pure. intros col Hcol. apply in_range in Hcol.
  rewrite (py_getitem_ok resampled col 0) by (unfold len; lia).
  simpl. apply cell_ok. exact Hr.
Qed.

Lemma draw_row_ok (v_max v_min v_range : Q) (resampled : list Q)
      (width height row : Z) :
  ~ v_range == 0 ->
  List.length resampled = Z.to_nat width ->
  height <> 1%Z ->
  draw_row v_max v_min v_range resampled width height row
  = Ok (row_label v_max v_min height row
        ++ join (plot_cells v_max v_range height row resampled))%string.
Proof.
  intros Hr Hlen Hh. unfold draw_row, int_truediv.
  destruct (Z.eqb_spec (height - 1) 0); [lia|]. simpl.
  rewrite plot_line_ok by assumption. reflexivity.
Qed.

(** The whole output, for a non-empty input and a height other than 1. *)
Lemma draw_ascii_graph_ok (v : Q) (vs : list Q) (title : string)
      (width height : Z) :
  height <> 1%Z ->
  let v_max := max_from v vs in
  let v_min := min_from v vs in
  let v_range := value_range v_max v_min in
  let resampled := resampled_values (v :: vs) width in
  draw_ascii_graph (v :: vs) title width height
  = Ok (title_line title
        :: map (fun row =>
                  (row_label v_max v_min height row
                   ++ join (plot_cells v_max v_range height row resampled))%string)
               (range height)
        ++ [axis_line width]).
Proof.
  intros Hh v_max v_min v_range resampled.
  unfold draw_ascii_graph. simpl py_min. simpl py_max. cbn [bind].
  rewrite resample_ok by discriminate. cbn [bind].
  fold v_max v_min v_range resampled.
  rewrite (mapM_pure _ (fun row =>
             (row_label v_max v_min height row
              ++ join (plot_cells v_max v_range height row resampled))%string)).
  - reflexivity.
  - intros row _. apply draw_row_ok.
    + apply value_range_nonzero.
    + apply resampled_values_length.
    + exact Hh.
Qed.

Lemma in_resampled_values (values : list Q) (width : Z) (x : Q) :
  values <> [] -> In x (resampled_values values width) -> In x values.
Proof.
  intros Hne Hx. unfold resampled_values in Hx.
  apply in_map_iff in Hx. destruct Hx as [col [<- Hcol]].
  apply in_range in Hcol. apply nth_In.
  assert (0 < len values)%Z.
  { unfold len. destruct values; [congruence | simpl; lia]. }
  pose proof (source_index_bounds (len values) width col) as Hb.
  unfold len in *. lia.
Qed.

(** ** Horizontal resampling *)



(** ** Flat signals *)

Lemma py_extrema_bounds (values : list Q) (v_max v_min : Q) :
  py_max values = Ok v_max -> py_min values = Ok v_min ->
  In v_max values /\ In v_min values /\
  forall x, In x values -> v_min <= x <= v_max.
Proof.
  destruct values as [|v vs]; [discriminate|].
  simpl. intros [= <-] [= <-].
  destruct (max_from_spec vs v) as [Hmi Hm].
  destruct (min_from_spec vs v) as [Hni Hn].
  repeat split; auto.
Qed.

Lemma flat_values (values : list Q) (v_max v_min : Q) :
  py_max values = Ok v_max -> py_min values = Ok v_min -> v_max == v_min ->
  forall x, In x values -> x == v_max.
Proof.
  intros Hmax Hmin Heq x Hx.
  destruct (py_extrema_bounds values v_max v_min Hmax Hmin) as [_ [_ Hb]].
  specialize (Hb x Hx). lra.
Qed.

Lemma value_range_flat (v_max v_min : Q) :
  v_max == v_min -> value_range v_max v_min = 1.
Proof.
  intros H. unfold value_range.
  apply Qneqb_false in H. now rewrite H.
Qed.

Lemma row_position_flat (v_max : Q) (height : Z) (val : Q) :
  val == v_max -> row_position v_max 1 height val == 0.
Proof.
  intros H. unfold row_position.
  setoid_replace (v_max - val) with 0 by lra. field.
Qed.

Lemma marked_iff (v_max v_range : Q) (height row : Z) (val : Q) :
  marked v_max v_range height row val = true
  <-> inject_Z row - (1 # 2) < row_position v_max v_range height val
      /\ row_position v_max v_range height val < inject_Z row + (1 # 2).
Proof.
  unfold marked. rewrite Qltb_lt.
  set (p := row_position v_max v_range height val).
  split.
  - intros H. apply Qabs_Qlt_condition in H. lra.
  - intros H. apply Qabs_Qlt_condition. lra.
Qed.

Lemma marked_flat (v_max : Q) (height row : Z) (val : Q) :
  (0 <= row)%Z -> val == v_max ->
  marked v_max 1 height row val = (row =? 0)%Z.
Proof.
  intros Hrow Hval.
  pose proof (row_position_flat v_max height val Hval) as Hp.
  destruct (Z.eqb_spec row 0) as [->|Hne].
  - apply marked_iff. change (inject_Z 0) with 0. lra.
  - destruct (marked v_max 1 height row val) eqn:E; [|reflexivity].
    apply marked_iff in E.
    assert (inject_Z 1 <= inject_Z row) by (rewrite <- Zle_Qle; lia).
    change (inject_Z 1) with 1 in *. lra.
Qed.

Lemma join_const {A : Type} (s : string) (l : list A) :
  join (map (fun _ => s) l) = str_repeat_nat s (List.length l).
Proof.
  induction l as [|a l IH]; simpl; [reflexivity|]. now rewrite IH.
Qed.

Lemma plot_cells_flat (v_max : Q) (height row : Z) (resampled : list Q) :
  (0 <= row)%Z ->
  (forall x, In x resampled -> x == v_max) ->
  join (plot_cells v_max 1 height row resampled)
  = str_repeat_nat (cell_char (row =? 0)%Z) (List.length resampled).
Proof.
  intros Hrow Hall. unfold plot_cells.
  rewrite <- join_const. f_equal.
  apply map_ext_in. intros x Hx.
  rewrite marked_flat by auto. reflexivity.
Qed.

Lemma nth_error_map_range {A : Type} (f : Z -> A) (height row : Z) :
  (0 <= row < height)%Z ->
  nth_error (map f (range height)) (Z.to_nat row) = Some (f row).
Proof.
  intros H. rewrite nth_error_map, nth_error_range by lia.
  simpl. now rewrite Z2Nat.id by lia.
Qed.

(** C10: for a constant input ([v_max == v_min]) every column has row
    position 0, so row 0 is marked in every column and no other row is
    marked anywhere: the flat signal is drawn along the top edge. *)
Theorem flat_signal_drawn_on_top_row (values : list Q) (title : string)
        (width height : Z) (v_max v_min : Q) :
  py_max values = Ok v_max -> py_min values = Ok v_min -> v_max == v_min ->
  (2 <= height)%Z ->
  exists rows,
    draw_ascii_graph values title width height
    = Ok (title_line title :: rows ++ [axis_line width]) /\
    (forall val, In val (resampled_values values width) ->
       exists vr,
         val_row v_max (value_range v_max v_min) height val = Ok vr /\ vr == 0) /\
    forall row, (0 <= row < height)%Z ->
      nth_error rows (Z.to_nat row)
      = Some (row_label v_max v_min height row
              ++ str_repeat (if (row =? 0)%Z then "*" else " ") width)%string.
Proof.
  intros Hmax Hmin Heq Hh.
  pose proof (flat_values values v_max v_min Hmax Hmin Heq) as Hflat.
  destruct values as [|v vs]; [discriminate|].
  simpl in Hmax, Hmin. injection Hmax as Emax. injection Hmin as Emin.
  assert (Hres : forall x, In x (resampled_values (v :: vs) width) -> x == v_max).
  { intros x Hx. apply Hflat.
    apply (in_resampled_values (v :: vs) width); [discriminate | exact Hx]. }
  eexists. split; [|split].
  - rewrite draw_ascii_graph_ok by lia. rewrite Emax, Emin. reflexivity.
  - intros val Hval. rewrite value_range_flat by exact Heq.
    rewrite val_row_ok by (intros H; discriminate).
    eexists. split; [reflexivity|]. apply row_position_flat. auto.
  - intros row Hrow. rewrite nth_error_map_range by exact Hrow.
    rewrite value_range_flat by exact Heq.
    rewrite plot_cells_flat by (auto; lia).
    rewrite resampled_values_length. reflexivity.
Qed.

Lemma flat_signal_drawn_on_top_row_witness :
  py_max [5; 5; 5] = Ok 5 /\ py_min [5; 5; 5] = Ok 5 /\ 5 == 5 /\ (2 <= 4)%Z /\
  exists rows,
    draw_ascii_graph [5; 5; 5] "flat" 6 4
    = Ok (title_line "flat" :: rows ++ [axis_line 6]) /\
    (forall val, In val (resampled_values [5; 5; 5] 6) ->
       exists vr, val_row 5 (value_range 5 5) 4 val = Ok vr /\ vr == 0) /\
    forall row, (0 <= row < 4)%Z ->
      nth_error rows (Z.to_nat row)
      = Some (row_label 5 5 4 row
              ++ str_repeat (if (row =? 0)%Z then "*" else " ") 6)%string.
Proof.
  split; [reflexivity|]. split; [reflexivity|]. split; [reflexivity|].
  split; [lia|].
  apply (flat_signal_drawn_on_top_row [5; 5; 5] "flat" 6 4 5 5);
    [reflexivity | reflexivity | reflexivity | lia].
Defined.

(** ** The labels respect equality of numbers *)







(** The degenerate case of the specification: all values 5.0. *)
Example flat_five_rendering :
  draw_ascii_graph [5; 5; 5] "flat" 6 4
  = Ok [title_line "flat";
        "   5.00 |******";
        "        |      ";
        "   5.00 |      ";
        "   5.00 |      ";
        "        +------"]%string.
Proof. reflexivity. Qed.

(** ** Vertical placement *)








(** The grid and the printed lines. *)
Lemma plot_grid_ok (v : Q) (vs : list Q) (width height : Z) :
  let v_max := max_from v vs in
  let v_min := min_from v vs in
  let v_range := value_range v_max v_min in
  let resampled := resampled_values (v :: vs) width in
  plot_grid (v :: vs) width height
  = Ok (map (fun row => plot_cells v_max v_range height row resampled)
            (range height)).
Proof.
  intros v_max v_min v_range resampled.
  unfold plot_grid. simpl py_min. simpl py_max. cbn [bind].
  rewrite resample_ok by discriminate. cbn [bind].
  fold v_max v_min v_range resampled.
  apply mapM_pure. intros row _. apply plot_line_ok.
  - apply value_range_nonzero.
  - apply resampled_values_length.
Qed.

Lemma draw_ascii_graph_grid (values : list Q) (title : string)
      (width height : Z) (v_max v_min : Q) :
  py_max values = Ok v_max -> py_min values = Ok v_min -> height <> 1%Z ->
  exists grid,
    plot_grid values width height = Ok grid /\
    draw_ascii_graph values title width height
    = Ok (title_line title
          :: map (fun row => (row_label v_max v_min height row
                              ++ join (nth (Z.to_nat row) grid []))%string)
                 (range height)
          ++ [axis_line width]).
Proof.
  intros Hmax Hmin Hh.
  destruct values as [|v vs]; [discriminate|].
  simpl in Hmax, Hmin. injection Hmax as Emax. injection Hmin as Emin.
  eexists. split; [apply plot_grid_ok|].
  rewrite draw_ascii_graph_ok by exact Hh.
  rewrite Emax, Emin. do 3 f_equal.
  apply map_ext_in. intros row Hrow. apply in_range in Hrow.
  f_equal. f_equal.
  rewrite (nth_indep _ []
             (plot_cells v_max (value_range v_max v_min) height 0
                         (resampled_values (v :: vs) width)))
    by (rewrite length_map, range_length; lia).
  rewrite (map_nth (fun row => plot_cells v_max (value_range v_max v_min)
                                 height row (resampled_values (v :: vs) width))).
  unfold range.
  rewrite (nth_indep _ 0%Z (Z.of_nat 0))
    by (rewrite length_map, length_seq; lia).
  rewrite (map_nth Z.of_nat), seq_nth by lia.
  simpl. now rewrite Z2Nat.id by lia.
Qed.









(** ** The square wave *)

Lemma mod_one_bounds (x : Q) : 0 <= mod_one x < 1.
Proof.
  unfold mod_one.
  pose proof (Qfloor_le x) as H1. pose proof (Qlt_floor x) as H2.
  rewrite inject_Z_plus in H2. change (inject_Z 1) with 1 in H2.
  split; lra.
Qed.

Lemma phase_ok (num_samples : Z) (periods : Q) (i : Z) :
  num_samples <> 0%Z ->
  phase num_samples periods i
  = Ok (mod_one (periods * inject_Z i / inject_Z num_samples)).
Proof.
  intros Hn. unfold phase, float_div.
  destruct (Qeq_bool (inject_Z num_samples) 0) eqn:E; [|reflexivity].
  apply Qeq_bool_iff in E. unfold Qeq in E. simpl in E. lia.
Qed.



(** Four periods over eight samples: every odd sample sits on the phase
    boundary 0.5 and is low. *)
Example square_8_4 :
  generate_square 8 4 = Ok [1; - (1); 1; - (1); 1; - (1); 1; - (1)] /\
  (exists ph, phase 8 4 1 = Ok ph /\ ph == 1 # 2).
Proof. split; [reflexivity|]. eexists. split; reflexivity. Qed.

(** The sawtooth stays in [-1, 1). *)
Lemma sawtooth_range (num_samples : Z) (periods : Q) :
  (0 < num_samples)%Z ->
  exists samples,
    generate_sawtooth num_samples periods = Ok samples /\
    List.length samples = Z.to_nat num_samples /\
    Forall (fun s => - (1) <= s /\ s < 1) samples.
Proof.
  intros Hn.
  exists (map (fun i => 2 * mod_one (periods * inject_Z i / inject_Z num_samples) - 1)
              (range num_samples)).
  split; [|split].
  - unfold generate_sawtooth. apply mapM_pure. intros i _.
    rewrite phase_ok by lia. reflexivity.
  - now rewrite length_map, range_length.
  - apply Forall_forall. intros s Hs. apply in_map_iff in Hs.
    destruct Hs as [i [<- _]].
    pose proof (mod_one_bounds (periods * inject_Z i / inject_Z num_samples)).
    split; lra.
Qed.

(** The preconditions of the plotter: an empty input and a height of 1
    raise. *)
Example draw_empty_raises :
  draw_ascii_graph [] "t" 70 15 = Raise ValueError.
Proof. reflexivity. Qed.

Example draw_height_1_raises :
  draw_ascii_graph [0; 1] "t" 4 1 = Raise ZeroDivisionError.
Proof. reflexivity. Qed.

(** ** The width of the labels *)

Lemma string_length_append (a b : string) :
  String.length (a ++ b) = (String.length a + String.length b)%nat.
Proof. induction a as [|c a IH]; simpl; [reflexivity | now rewrite IH]. Qed.

Lemma str_repeat_nat_length (c : ascii) (n : nat) :
  String.length (str_repeat_nat (String c EmptyString) n) = n.
Proof. induction n as [|n IH]; simpl; [reflexivity | now rewrite IH]. Qed.

Lemma digits_fuel_length (fuel : nat) :
  forall (n : Z) (acc : string) (k : nat),
    (0 <= n < 10 ^ Z.of_nat k)%Z -> (1 <= k)%nat ->
    (String.length (digits_fuel fuel n acc) <= k + String.length acc)%nat.
Proof.
  induction fuel as [|fuel IH]; intros n acc k Hn Hk; simpl; [lia|].
  destruct (Z.eqb_spec (n / 10) 0) as [E|E]; simpl; [lia|].
  destruct k as [|[|k]]; [lia | |].
  - exfalso. apply E. apply Z.div_small. simpl in Hn. lia.
  - specialize (IH (n / 10)%Z
                   (String (digit_char (n mod 10)) acc) (S k)).
    simpl String.length in IH.
    assert ((0 <= n / 10 < 10 ^ Z.of_nat (S k))%Z).
    { split; [apply Z.div_pos; lia|].
      apply Z.div_lt_upper_bound; [lia|].
      rewrite <- Z.pow_succ_r by lia.
      replace (Z.succ (Z.of_nat (S k))) with (Z.of_nat (S (S k))) by lia.
      lia. }
    specialize (IH ltac:(assumption) ltac:(lia)). lia.
Qed.

Lemma str_of_Z_length (n : Z) (k : nat) :
  (0 <= n < 10 ^ Z.of_nat k)%Z -> (1 <= k)%nat ->
  (String.length (str_of_Z n) <= k)%nat.
Proof.
  intros Hn Hk. unfold str_of_Z.
  pose proof (digits_fuel_length (S (Z.to_nat (Z.log2 n))) n EmptyString k Hn Hk)
    as H.
  change (String.length EmptyString) with 0%nat in H. lia.
Qed.

Lemma round_half_even_cases (q : Q) :
  round_half_even q = Qfloor q
  \/ (round_half_even q = (Qfloor q + 1)%Z /\ (1 # 2) <= q - inject_Z (Qfloor q)).
Proof.
  unfold round_half_even.
  destruct (Qcompare_spec (q - inject_Z (Qfloor q)) (1 # 2)) as [H|H|H].
  - destruct (Z.even (Qfloor q)); [left; reflexivity|].
    right. split; [reflexivity | lra].
  - left. reflexivity.
  - right. split; [reflexivity | lra].
Qed.

Lemma round_half_even_upper (q : Q) (k : Z) :
  q < inject_Z k + (1 # 2) -> (round_half_even q <= k)%Z.
Proof.
  intros H. pose proof (Qfloor_le q) as Hf.
  destruct (round_half_even_cases q) as [->|[-> Hge]].
  - assert (A : inject_Z (Qfloor q) < inject_Z (k + 1)).
    { rewrite inject_Z_plus. change (inject_Z 1) with 1. lra. }
    rewrite <- Zlt_Qlt in A. lia.
  - assert (A : inject_Z (Qfloor q) < inject_Z k) by lra.
    rewrite <- Zlt_Qlt in A. lia.
Qed.

Lemma round_half_even_nonneg (q : Q) : 0 <= q -> (0 <= round_half_even q)%Z.
Proof.
  intros H.
  assert (Hf : (0 <= Qfloor q)%Z).
  { rewrite <- (Qfloor_Z 0). apply Qfloor_resp_le. exact H. }
  destruct (round_half_even_cases q) as [->|[-> _]]; lia.
Qed.

Lemma format_2f_length (x : Q) :
  fits_label x -> (String.length (format_2f x) <= 7)%nat.
Proof.
  intros [Hlo Hhi]. unfold format_2f.
  set (n := round_half_even (Qabs x * 100)).
  assert (Hn0 : (0 <= n)%Z).
  { apply round_half_even_nonneg.
    pose proof (Qabs_nonneg x). apply Qmult_le_0_compat; lra. }
  rewrite !string_length_append. simpl String.length.
  destruct (Qltb x 0) eqn:E.
  - apply Qltb_lt in E.
    assert (Hn : (n <= 99999)%Z).
    { apply round_half_even_upper.
      rewrite (Qabs_neg x) by lra. change (inject_Z 99999) with 99999. lra. }
    assert (String.length (str_of_Z (n / 100)) <= 3)%nat.
    { apply str_of_Z_length; [|lia]. split; [apply Z.div_pos; lia|].
      apply Z.div_lt_upper_bound; simpl; lia. }
    simpl. lia.
  - apply Qltb_ge in E.
    assert (Hn : (n <= 999999)%Z).
    { apply round_half_even_upper.
      rewrite (Qabs_pos x) by lra. change (inject_Z 999999) with 999999. lra. }
    assert (String.length (str_of_Z (n / 100)) <= 4)%nat.
    { apply str_of_Z_length; [|lia]. split; [apply Z.div_pos; lia|].
      apply Z.div_lt_upper_bound; simpl; lia. }
    simpl. lia.
Qed.

Lemma fmt_label_length (x : Q) :
  fits_label x -> String.length (fmt_label x) = 9%nat.
Proof.
  intros H. apply format_2f_length in H.
  unfold fmt_label, rjust.
  rewrite !string_length_append, str_repeat_nat_length.
  change (String.length " |") with 2%nat. lia.
Qed.

Lemma fits_label_midpoint (a b : Q) :
  fits_label a -> fits_label b -> fits_label ((a + b) / 2).
Proof.
  unfold fits_label. intros [Ha1 Ha2] [Hb1 Hb2].
  assert (E : (a + b) / 2 == (a + b) * (1 # 2)) by field.
  rewrite E. split; lra.
Qed.

Lemma row_label_length (v_max v_min : Q) (height row : Z) :
  fits_label v_max -> fits_label v_min ->
  String.length (row_label v_max v_min height row) = 9%nat.
Proof.
  intros Hmax Hmin. unfold row_label.
  destruct (row =? 0)%Z; [apply fmt_label_length; exact Hmax|].
  destruct (row =? height - 1)%Z; [apply fmt_label_length; exact Hmin|].
  destruct (row =? height / 2)%Z; [|reflexivity].
  apply fmt_label_length, fits_label_midpoint; assumption.
Qed.

Lemma plot_cells_length (v_max v_range : Q) (height row : Z)
      (resampled : list Q) :
  String.length (join (plot_cells v_max v_range height row resampled))
  = List.length resampled.
Proof.
  unfold plot_cells.
  induction resampled as [|x l IH]; simpl; [reflexivity|].
  rewrite string_length_append, IH.
  destruct (marked v_max v_range height row x); reflexivity.
Qed.

Lemma plot_cells_chars (v_max v_range : Q) (height row : Z)
      (resampled : list Q) :
  plot_chars (join (plot_cells v_max v_range height row resampled)).
Proof.
  unfold plot_cells.
  induction resampled as [|x l IH]; simpl; [exact I|].
  destruct (marked v_max v_range height row x); simpl; auto.
Qed.

(** ** The shape of the output *)

(** C1, as the code has it: for a non-empty input whose values all lie
    strictly between -999.995 and 9999.995 (so that every label number
    fits its 7-character field), the default call prints 15 content
    lines and then the axis rule, and every content line is a
    9-character label followed by 70 plot characters, each a star or a
    space. *)
Theorem default_render_shape (values : list Q) (title : string) :
  values <> [] -> (forall x, In x values -> fits_label x) ->
  exists lines,
    draw_ascii_graph_default values title = Ok lines /\
    graph_shape 70 15 title lines.
Proof.
  intros Hne Hfit.
  destruct values as [|v vs]; [congruence|].
  destruct (max_from_spec vs v) as [Hmax _].
  destruct (min_from_spec vs v) as [Hmin _].
  eexists. split.
  - unfold draw_ascii_graph_default. apply draw_ascii_graph_ok. lia.
  - eexists. split; [reflexivity|]. split.
    + now rewrite length_map, range_length.
    + apply Forall_forall. intros line Hline.
      apply in_map_iff in Hline. destruct Hline as [row [<- _]].
      eexists. eexists. split; [reflexivity|]. split; [|split].
      * apply row_label_length; apply Hfit; assumption.
      * rewrite plot_cells_length. apply resampled_values_length.
      * apply plot_cells_chars.
Qed.

Lemma default_render_shape_witness :
  [0; 1 # 2; 1] <> [] /\ (forall x, In x [0; 1 # 2; 1] -> fits_label x) /\
  exists lines,
    draw_ascii_graph_default [0; 1 # 2; 1] "demo" = Ok lines /\
    graph_shape 70 15 "demo" lines.
Proof.
  assert (H : forall x, In x [0; 1 # 2; 1] -> fits_label x).
  { intros x [<-|[<-|[<-|[]]]]; split; reflexivity. }
  split; [discriminate|]. split; [exact H|].
  apply (default_render_shape [0; 1 # 2; 1] "demo"); [discriminate | exact H].
Defined.

(** C1 fails as stated: for the one-sample input [10000.0] the label of
    the top row is ["10000.00 |"], ten characters, and the line has 80
    characters instead of 79. *)
Lemma wide_label_breaks_shape :
  exists lines,
    draw_ascii_graph_default [10000] "" = Ok lines /\
    (exists row, nth_error lines 1 = Some row /\ String.length row = 80%nat) /\
    row_label 10000 10000 15 0 = "10000.00 |"%string /\
    ~ graph_shape 70 15 "" lines.
Proof.
  eexists. split; [vm_compute; reflexivity|].
  split; [eexists; split; reflexivity|].
  split; [reflexivity|].
  intros [rows [Hl [Hlen HF]]].
  destruct rows as [|r rows']; [discriminate|].
  apply (f_equal (fun l => nth_error l 1)) in Hl.
  simpl in Hl. injection Hl as Hr.
  inversion HF as [|? ? Hc _]; subst.
  destruct Hc as [label [plot [E [Hlab [Hplot _]]]]].
  apply (f_equal String.length) in E.
  rewrite string_length_append, Hlab, Hplot in E.
  vm_compute in E. discriminate.
Qed.

(** ** Axis labels *)



Example five_row_labels :
  draw_ascii_graph [0; 1] "t" 4 5
  = Ok [title_line "t";
        "   1.00 |  **";
        "        |    ";
        "   0.50 |    ";
        "        |    ";
        "   0.00 |**  ";
        "        +----"]%string.
Proof. reflexivity. Qed.


(* ------------------------------------------------------------------ *)
(** ** The magnitude spectrum *)

Section SpectrumFacts.
Local Open Scope R_scope.

Lemma firstn_seq_le (k : nat) :
  forall s n : nat, (k <= n)%nat -> firstn k (seq s n) = seq s k.
Proof.
  induction k as [|k IH]; intros s n Hk; [reflexivity|].
  destruct n as [|n]; [lia|]. simpl. f_equal. apply IH. lia.
Qed.

Lemma double_tail_length (l : list R) :
  List.length (double_tail l) = List.length l.
Proof. destruct l; simpl; [reflexivity | now rewrite length_map]. Qed.

Lemma double_tail_nth (l : list R) (k : nat) :
  (k < List.length l)%nat ->
  nth k (double_tail l) 0 = (if (k =? 0)%nat then 1 else 2) * nth k l 0.
Proof.
  intros Hk. destruct l as [|m0 ms]; [simpl in Hk; lia|].
  destruct k as [|k]; simpl.
  - ring.
  - simpl in Hk.
    rewrite (nth_indep _ 0 (0 * 2)) by (rewrite length_map; lia).
    rewrite (map_nth (fun m => m * 2)). ring.
Qed.

Lemma Cabs_nonneg (c : C) : 0 <= Cabs c.
Proof. apply sqrt_pos. Qed.

Lemma Cabs_real (x : R) : Cabs (x, 0) = Rabs x.
Proof.
  unfold Cabs. simpl.
  replace (x * x + 0 * 0) with (Rsqr x) by (unfold Rsqr; ring).
  apply sqrt_Rsqr_abs.
Qed.

Lemma dft_sum_bin_0 (n : nat) (a : list R) :
  forall m, dft_sum n 0 m a = (sum_list a, 0).
Proof.
  induction a as [|x a IH]; intros m; simpl; [reflexivity|].
  rewrite IH. unfold Cadd, dft_term. simpl.
  replace (2 * PI * INR m * 0 / INR n) with 0 by (unfold Rdiv; ring).
  rewrite cos_0, sin_0. f_equal; ring.
Qed.

Lemma compute_fft_magnitudes_ok (signal : list R) :
  signal <> [] ->
  let n := List.length signal in
  compute_fft_magnitudes signal
  = Ok (double_tail
          (map (fun k => Cabs (dft_bin signal k) / INR n) (seq 0 (n / 2)))).
Proof.
  intros Hne n. unfold compute_fft_magnitudes, fft.
  destruct signal as [|x a]; [congruence|]. cbn [bind].
  fold n. rewrite firstn_map, map_map.
  rewrite firstn_seq_le; [reflexivity|].
  apply Nat.Div0.div_le_upper_bound. lia.
Qed.

(** C6, as the code has it: for a non-empty signal of length N the
    spectrum has [N // 2] values, all non-negative; bin [k] is the
    magnitude of bin [k] of the transform divided by N, doubled for
    [k >= 1] and not for [k = 0]; and when N >= 2, so that bin 0 exists,
    bin 0 is the absolute value of the mean of the signal. *)
Theorem magnitude_spectrum (signal : list R) :
  signal <> [] ->
  let n := List.length signal in
  exists fft_result mags,
    fft signal = Ok fft_result /\
    compute_fft_magnitudes signal = Ok mags /\
    List.length mags = (n / 2)%nat /\
    Forall (fun m => 0 <= m) mags /\
    (forall k, (k < n / 2)%nat ->
       nth_error mags k
       = Some ((if (k =? 0)%nat then 1 else 2)
               * (Cabs (nth k fft_result (0, 0)) / INR n))) /\
    ((2 <= n)%nat -> nth_error mags 0 = Some (Rabs (mean signal))).
Proof.
  intros Hne n.
  assert (Hn : (0 < n)%nat).
  { subst n. destruct signal; [congruence | simpl; lia]. }
  assert (HnR : 0 < INR n) by (apply lt_0_INR; exact Hn).
  assert (Hhalf : (n / 2 <= n)%nat)
    by (apply Nat.Div0.div_le_upper_bound; lia).
  set (raw := map (fun k => Cabs (dft_bin signal k) / INR n) (seq 0 (n / 2))).
  assert (Hraw : List.length raw = (n / 2)%nat)
    by (subst raw; now rewrite length_map, length_seq).
  assert (Hnth : forall k, (k < n / 2)%nat ->
            nth k raw 0 = Cabs (dft_bin signal k) / INR n).
  { intros k Hk. subst raw.
    rewrite (nth_indep _ 0 (Cabs (dft_bin signal 0) / INR n))
      by (rewrite length_map, length_seq; exact Hk).
    rewrite (map_nth (fun k => Cabs (dft_bin signal k) / INR n)).
    now rewrite seq_nth by exact Hk. }
  assert (Hbin : forall k, (k < n / 2)%nat ->
            nth_error (double_tail raw) k
            = Some ((if (k =? 0)%nat then 1 else 2)
                    * (Cabs (dft_bin signal k) / INR n))).
  { intros k Hk.
    rewrite (nth_error_nth' _ 0) by (rewrite double_tail_length; lia).
    rewrite double_tail_nth by lia. now rewrite Hnth by exact Hk. }
  exists (map (dft_bin signal) (seq 0 n)), (double_tail raw).
  split; [unfold fft; destruct signal; [congruence | reflexivity]|].
  split; [apply compute_fft_magnitudes_ok; exact Hne|].
  split; [now rewrite double_tail_length|].
  split; [|split].
  - apply Forall_forall. intros m Hm.
    apply In_nth_error in Hm. destruct Hm as [k Hk].
    assert (Hlt : (k < n / 2)%nat).
    { rewrite <- Hraw, <- double_tail_length.
      apply nth_error_Some. congruence. }
    rewrite (Hbin k Hlt) in Hk. injection Hk as <-.
    apply Rmult_le_pos.
    + destruct (k =? 0)%nat; lra.
    + apply Rmult_le_pos; [apply Cabs_nonneg|].
      left. apply Rinv_0_lt_compat. exact HnR.
  - intros k Hk. rewrite (Hbin k Hk). do 3 f_equal.
    rewrite (nth_indep _ (0, 0) (dft_bin signal 0))
      by (rewrite length_map, length_seq; lia).
    rewrite (map_nth (dft_bin signal)).
    now rewrite seq_nth by lia.
  - intros H2.
    assert (H0 : (0 < n / 2)%nat) by (apply Nat.div_str_pos; lia).
    rewrite (Hbin 0%nat H0). f_equal. simpl Nat.eqb. cbv iota.
    unfold dft_bin. rewrite dft_sum_bin_0, Cabs_real.
    unfold mean. fold n. unfold Rdiv.
    rewrite Rabs_mult, Rabs_inv, (Rabs_pos_eq (INR n)) by lra. ring.
Qed.

Lemma magnitude_spectrum_witness :
  [1; 3] <> [] /\
  exists fft_result mags,
    fft [1; 3] = Ok fft_result /\
    compute_fft_magnitudes [1; 3] = Ok mags /\
    List.length mags = (2 / 2)%nat /\
    Forall (fun m => 0 <= m) mags /\
    (forall k, (k < 2 / 2)%nat ->
       nth_error mags k
       = Some ((if (k =? 0)%nat then 1 else 2)
               * (Cabs (nth k fft_result (0, 0)) / INR 2))) /\
    ((2 <= 2)%nat -> nth_error mags 0 = Some (Rabs (mean [1; 3]))).
Proof.
  split; [discriminate|].
  apply (magnitude_spectrum [1; 3]). discriminate.
Defined.

(** C6 fails as stated for a signal of one sample: the spectrum has
    [1 // 2 = 0] values, so there is no bin 0 to equal the mean. *)
Lemma one_sample_spectrum_is_empty :
  [5] <> [] /\
  compute_fft_magnitudes [5] = Ok [] /\
  nth_error (@nil R) 0 = None /\
  mean [5] = 5.
Proof.
  split; [discriminate|]. split; [reflexivity|]. split; [reflexivity|].
  unfold mean, sum_list. simpl. field.
Qed.

End SpectrumFacts.

(* ------------------------------------------------------------------ *)
(** ** The spectrum of a sine *)

Section SineSpectrum.
Local Open Scope R_scope.

Lemma Rsum_ext (f g : nat -> R) (n : nat) :
  (forall m, (m < n)%nat -> f m = g m) -> Rsum f n = Rsum g n.
Proof.
  induction n as [|n IH]; intros H; simpl; [reflexivity|].
  rewrite IH by (intros m Hm; apply H; lia).
  rewrite (H n) by lia. reflexivity.
Qed.

Lemma Rsum_plus (f g : nat -> R) (n : nat) :
  Rsum (fun m => f m + g m) n = Rsum f n + Rsum g n.
Proof. induction n as [|n IH]; simpl; [ring | rewrite IH; ring]. Qed.

Lemma Rsum_minus (f g : nat -> R) (n : nat) :
  Rsum (fun m => f m - g m) n = Rsum f n - Rsum g n.
Proof. induction n as [|n IH]; simpl; [ring | rewrite IH; ring]. Qed.

Lemma Rsum_scal (c : R) (f : nat -> R) (n : nat) :
  Rsum (fun m => c * f m) n = c * Rsum f n.
Proof. induction n as [|n IH]; simpl; [ring | rewrite IH; ring]. Qed.

Lemma Rsum_const (c : R) (n : nat) : Rsum (fun _ => c) n = INR n * c.
Proof.
  induction n as [|n IH]; [simpl; ring|].
  rewrite S_INR. simpl. rewrite IH. ring.
Qed.

Lemma Rsum_shift (f : nat -> R) (n : nat) :
  Rsum f (S n) = f 0%nat + Rsum (fun m => f (S m)) n.
Proof.
  induction n as [|n IH]; [simpl; ring|].
  change (Rsum f (S (S n))) with (Rsum f (S n) + f (S n)).
  rewrite IH. simpl. ring.
Qed.

(** The transform of a list given by a function on the indices. *)
Lemma dft_sum_map_seq (n k : nat) (f : nat -> R) (len : nat) :
  forall m0,
    dft_sum n k m0 (map f (seq m0 len))
    = (Rsum (fun i => f (m0 + i)%nat
                      * cos (2 * PI * INR (m0 + i) * INR k / INR n)) len,
       - Rsum (fun i => f (m0 + i)%nat
                        * sin (2 * PI * INR (m0 + i) * INR k / INR n)) len).
Proof.
  induction len as [|len IH]; intros m0.
  - simpl. f_equal. ring.
  - cbn [seq map dft_sum]. rewrite IH.
    rewrite (Rsum_shift (fun i => f (m0 + i)%nat
                          * cos (2 * PI * INR (m0 + i) * INR k / INR n))).
    rewrite (Rsum_shift (fun i => f (m0 + i)%nat
                          * sin (2 * PI * INR (m0 + i) * INR k / INR n))).
    unfold Cadd, dft_term. cbn [fst snd].
    rewrite Nat.add_0_r.
    rewrite (Rsum_ext
               (fun i => f (S m0 + i)%nat
                         * cos (2 * PI * INR (S m0 + i) * INR k / INR n))
               (fun m => f (m0 + S m)%nat
                         * cos (2 * PI * INR (m0 + S m) * INR k / INR n)))
      by (intros m _; now rewrite Nat.add_succ_r).
    rewrite (Rsum_ext
               (fun i => f (S m0 + i)%nat
                         * sin (2 * PI * INR (S m0 + i) * INR k / INR n))
               (fun m => f (m0 + S m)%nat
                         * sin (2 * PI * INR (m0 + S m) * INR k / INR n)))
      by (intros m _; now rewrite Nat.add_succ_r).
    f_equal. ring.
Qed.

(** Sums of cosines and sines at equally spaced angles. *)
Lemma cos_sum_telescope (t : R) (n : nat) :
  2 * sin (t / 2) * Rsum (fun m => cos (INR m * t)) n
  = sin ((INR n - 1 / 2) * t) + sin (t / 2).
Proof.
  induction n as [|n IH].
  - simpl. replace ((0 - 1 / 2) * t) with (- (t / 2)) by field.
    rewrite sin_neg. ring.
  - cbn [Rsum]. rewrite Rmult_plus_distr_l, IH, S_INR.
    replace ((INR n - 1 / 2) * t) with (INR n * t - t / 2) by field.
    replace ((INR n + 1 - 1 / 2) * t) with (INR n * t + t / 2) by field.
    rewrite sin_plus, sin_minus. ring.
Qed.

Lemma sin_sum_telescope (t : R) (n : nat) :
  2 * sin (t / 2) * Rsum (fun m => sin (INR m * t)) n
  = cos (t / 2) - cos ((INR n - 1 / 2) * t).
Proof.
  induction n as [|n IH].
  - simpl. replace ((0 - 1 / 2) * t) with (- (t / 2)) by field.
    rewrite cos_neg. ring.
  - cbn [Rsum]. rewrite Rmult_plus_distr_l, IH, S_INR.
    replace ((INR n - 1 / 2) * t) with (INR n * t - t / 2) by field.
    replace ((INR n + 1 - 1 / 2) * t) with (INR n * t + t / 2) by field.
    rewrite cos_plus, cos_minus. ring.
Qed.

Lemma root_angle_facts (N j : nat) :
  (0 < j < N)%nat ->
  let t := 2 * PI * INR j / INR N in
  0 < sin (t / 2)
  /\ (INR N - 1 / 2) * t = - (t / 2) + 2 * INR j * PI.
Proof.
  intros Hj t.
  assert (HN : 0 < INR N) by (apply lt_0_INR; lia).
  assert (Hj0 : 0 < INR j) by (apply lt_0_INR; lia).
  assert (HjN : INR j < INR N) by (apply lt_INR; lia).
  pose proof PI_RGT_0 as Hpi.
  split.
  - apply sin_gt_0.
    + subst t. apply Rdiv_lt_0_compat; [|lra].
      apply Rdiv_lt_0_compat; [|exact HN].
      apply Rmult_lt_0_compat; lra.
    + subst t.
      replace (2 * PI * INR j / INR N / 2) with (PI * (INR j / INR N))
        by (field; lra).
      rewrite <- (Rmult_1_r PI) at 2.
      apply Rmult_lt_compat_l; [exact Hpi|].
      apply (Rmult_lt_reg_r (INR N)); [exact HN|].
      replace (INR j / INR N * INR N) with (INR j) by (field; lra). lra.
  - subst t. field. lra.
Qed.

Lemma cos_sum_root (N j : nat) :
  (0 < j < N)%nat ->
  Rsum (fun m => cos (INR m * (2 * PI * INR j / INR N))) N = 0.
Proof.
  intros Hj. destruct (root_angle_facts N j Hj) as [Hs Ha].
  pose proof (cos_sum_telescope (2 * PI * INR j / INR N) N) as H.
  rewrite Ha, sin_period, sin_neg in H.
  set (S := Rsum _ N) in *. set (s := sin _) in *. nra.
Qed.

Lemma sin_sum_root (N j : nat) :
  (0 < j < N)%nat ->
  Rsum (fun m => sin (INR m * (2 * PI * INR j / INR N))) N = 0.
Proof.
  intros Hj. destruct (root_angle_facts N j Hj) as [Hs Ha].
  pose proof (sin_sum_telescope (2 * PI * INR j / INR N) N) as H.
  rewrite Ha, cos_period, cos_neg in H.
  set (S := Rsum _ N) in *. set (s := sin _) in *. nra.
Qed.

(** The same for an integer multiple, of either sign. *)
Lemma IZR_pos_INR (q : positive) : IZR (Zpos q) = INR (Pos.to_nat q).
Proof. now rewrite INR_IZR_INZ, positive_nat_Z. Qed.

Lemma IZR_neg_INR (q : positive) : IZR (Zneg q) = - INR (Pos.to_nat q).
Proof.
  change (Zneg q) with (- Zpos q)%Z. now rewrite opp_IZR, IZR_pos_INR.
Qed.

Lemma cos_sum_int (N : nat) (j : Z) :
  (0 < Z.abs j < Z.of_nat N)%Z ->
  Rsum (fun m => cos (INR m * (2 * PI * IZR j / INR N))) N = 0.
Proof.
  intros Hj. destruct j as [|q|q]; [simpl in Hj; lia | |].
  - rewrite (IZR_pos_INR q). apply cos_sum_root. simpl in Hj. lia.
  - rewrite (IZR_neg_INR q).
    rewrite <- (cos_sum_root N (Pos.to_nat q)) by (simpl in Hj; lia).
    apply Rsum_ext. intros m _. rewrite <- cos_neg. f_equal.
    unfold Rdiv. ring.
Qed.

Lemma sin_sum_int (N : nat) (j : Z) :
  (Z.abs j < Z.of_nat N)%Z ->
  Rsum (fun m => sin (INR m * (2 * PI * IZR j / INR N))) N = 0.
Proof.
  intros Hj. destruct j as [|q|q].
  - rewrite (Rsum_ext _ (fun _ => 0)), Rsum_const; [ring|].
    intros m _.
    replace (INR m * (2 * PI * 0 / INR N)) with 0 by (unfold Rdiv; ring).
    apply sin_0.
  - rewrite (IZR_pos_INR q). apply sin_sum_root. simpl in Hj. lia.
  - rewrite (IZR_neg_INR q).
    assert (H : Rsum (fun m => sin (INR m * (2 * PI * - INR (Pos.to_nat q) / INR N))) N
                = - Rsum (fun m => sin (INR m * (2 * PI * INR (Pos.to_nat q) / INR N))) N).
    { replace (- Rsum (fun m => sin (INR m * (2 * PI * INR (Pos.to_nat q) / INR N))) N)
        with (-1 * Rsum (fun m => sin (INR m * (2 * PI * INR (Pos.to_nat q) / INR N))) N)
        by ring.
      rewrite <- Rsum_scal. apply Rsum_ext. intros m _.
      replace (-1 * sin (INR m * (2 * PI * INR (Pos.to_nat q) / INR N)))
        with (- sin (INR m * (2 * PI * INR (Pos.to_nat q) / INR N))) by ring.
      rewrite <- sin_neg. f_equal. unfold Rdiv. ring. }
    rewrite H, sin_sum_root by (simpl in Hj; lia). ring.
Qed.

Lemma prod_sin_cos (x y : R) :
  sin x * cos y = 1 / 2 * (sin (x + y) + sin (x - y)).
Proof. rewrite sin_plus, sin_minus. field. Qed.

Lemma prod_sin_sin (x y : R) :
  sin x * sin y = 1 / 2 * (cos (x - y) - cos (x + y)).
Proof. rewrite cos_plus, cos_minus. field. Qed.

(** Bin [k] of the transform of [p] periods of a sine over [N] samples. *)
Lemma sine_bin (N p k : nat) :
  (0 < p)%nat -> (0 < k)%nat -> (p + k < N)%nat ->
  dft_bin
    (map (fun m => sin (2 * PI * IZR (Z.of_nat p) * IZR (Z.of_nat m)
                        / IZR (Z.of_nat N)))
         (seq 0 N)) k
  = (0, if (k =? p)%nat then - (INR N / 2) else 0).
Proof.
  intros Hp Hk HN.
  assert (HNR : INR N <> 0) by (apply not_0_INR; lia).
  set (A := 2 * PI * IZR (Z.of_nat p + Z.of_nat k) / INR N).
  set (B := 2 * PI * IZR (Z.of_nat p - Z.of_nat k) / INR N).
  assert (Hplus : forall m,
            2 * PI * INR p * INR m / INR N + 2 * PI * INR m * INR k / INR N
            = INR m * A).
  { intros m. unfold A. rewrite plus_IZR, <- !INR_IZR_INZ. field. exact HNR. }
  assert (Hminus : forall m,
            2 * PI * INR p * INR m / INR N - 2 * PI * INR m * INR k / INR N
            = INR m * B).
  { intros m. unfold B. rewrite minus_IZR, <- !INR_IZR_INZ. field. exact HNR. }
  unfold dft_bin. rewrite length_map, length_seq, dft_sum_map_seq.
  f_equal.
  - rewrite (Rsum_ext _ (fun m => 1 / 2 * (sin (INR m * A) + sin (INR m * B)))).
    + rewrite Rsum_scal, Rsum_plus.
      unfold A, B. rewrite !sin_sum_int by lia. ring.
    + intros m _. cbn [Nat.add]. rewrite <- !INR_IZR_INZ.
      rewrite prod_sin_cos, Hplus, Hminus. reflexivity.
  - rewrite (Rsum_ext _ (fun m => 1 / 2 * (cos (INR m * B) - cos (INR m * A)))).
    + rewrite Rsum_scal, Rsum_minus.
      unfold A at 1. rewrite cos_sum_int by lia.
      destruct (Nat.eqb_spec k p) as [->|Hne].
      * rewrite (Rsum_ext _ (fun _ => 1)), Rsum_const; [field|].
        intros m _. unfold B. rewrite Z.sub_diag.
        replace (INR m * (2 * PI * 0 / INR N)) with 0 by (unfold Rdiv; ring).
        apply cos_0.
      * unfold B. rewrite cos_sum_int by lia. ring.
    + intros m _. cbn [Nat.add]. rewrite <- !INR_IZR_INZ.
      rewrite prod_sin_sin, Hplus, Hminus. reflexivity.
Qed.

Lemma Cabs_imag (y : R) : Cabs (0, y) = Rabs y.
Proof.
  unfold Cabs. simpl.
  replace (0 * 0 + y * y) with (Rsqr y) by (unfold Rsqr; ring).
  apply sqrt_Rsqr_abs.
Qed.

Lemma spectrum_nth (signal : list R) (k : nat) :
  let n := List.length signal in
  (k < n / 2)%nat ->
  nth k (double_tail
           (map (fun k => Cabs (dft_bin signal k) / INR n) (seq 0 (n / 2)))) 0
  = (if (k =? 0)%nat then 1 else 2) * (Cabs (dft_bin signal k) / INR n).
Proof.
  intros n Hk.
  rewrite double_tail_nth by (rewrite length_map, length_seq; exact Hk).
  f_equal.
  rewrite (nth_indep _ 0 (Cabs (dft_bin signal 0) / INR n))
    by (rewrite length_map, length_seq; exact Hk).
  rewrite (map_nth (fun k => Cabs (dft_bin signal k) / INR n)).
  now rewrite seq_nth by exact Hk.
Qed.

(** The spectrum of [p] periods of a sine over [N] samples: 1 at bin
    [p], 0 at every other bin from 1 on. *)
Lemma sine_spectrum (N p k : nat) :
  (0 < p < N / 2)%nat -> (0 < k < N / 2)%nat ->
  let signal :=
    map (fun m => sin (2 * PI * IZR (Z.of_nat p) * IZR (Z.of_nat m)
                       / IZR (Z.of_nat N)))
        (seq 0 N) in
  exists mags,
    compute_fft_magnitudes signal = Ok mags /\
    List.length mags = (N / 2)%nat /\
    nth k mags 0 = if (k =? p)%nat then 1 else 0.
Proof.
  intros Hp Hk signal.
  assert (Hhalf : (2 * (N / 2) <= N)%nat)
    by (apply Nat.Div0.mul_div_le).
  assert (Hlen : List.length signal = N)
    by (unfold signal; now rewrite length_map, length_seq).
  assert (Hne : signal <> []).
  { intros E. rewrite E in Hlen. simpl in Hlen. lia. }
  assert (HNR : 0 < INR N) by (apply lt_0_INR; lia).
  eexists. split; [apply compute_fft_magnitudes_ok; exact Hne|].
  rewrite Hlen. split.
  - now rewrite double_tail_length, length_map, length_seq.
  - pose proof (spectrum_nth signal k) as H. rewrite Hlen in H.
    cbv zeta in H. rewrite H by lia.
    destruct (Nat.eqb_spec k 0) as [->|_]; [lia|].
    unfold signal. rewrite sine_bin by lia. rewrite Cabs_imag.
    destruct (k =? p)%nat.
    + rewrite Rabs_Ropp, Rabs_pos_eq by lra. field. lra.
    + rewrite Rabs_R0. field. lra.
Qed.

Lemma generate_sine_ok (N p : nat) :
  (0 < N)%nat ->
  generate_sine (Z.of_nat N) (IZR (Z.of_nat p))
  = Ok (map (fun m => sin (2 * PI * IZR (Z.of_nat p) * IZR (Z.of_nat m)
                           / IZR (Z.of_nat N)))
            (seq 0 N)).
Proof.
  intros HN. unfold generate_sine.
  destruct (Z.eqb_spec (Z.of_nat N) 0) as [E|_]; [lia|].
  rewrite (mapM_pure _ (fun i => sin (2 * PI * IZR (Z.of_nat p) * IZR i
                                      / IZR (Z.of_nat N))))
    by reflexivity.
  unfold range. now rewrite map_map, Nat2Z.id.
Qed.

(** C7: for the sine of 4 periods over 128 samples, the spectrum has 64
    bins, bin 4 is 1, and every other bin from 1 to 63 is smaller (it is
    0): the largest value among bins 1..63 is at bin 4 and nowhere
    else. *)
Theorem sine_128_4_peak_at_bin_4 :
  exists signal mags,
    generate_sine 128 4 = Ok signal /\
    List.length signal = 128%nat /\
    compute_fft_magnitudes signal = Ok mags /\
    List.length mags = 64%nat /\
    nth 4 mags 0 = 1 /\
    forall k, (1 <= k <= 63)%nat -> k <> 4%nat -> nth k mags 0 < nth 4 mags 0.
Proof.
  pose proof (generate_sine_ok 128 4 ltac:(lia)) as Hgen.
  change (Z.of_nat 128) with 128%Z in Hgen.
  change (Z.of_nat 4) with 4%Z in Hgen.
  set (signal := map (fun m => sin (2 * PI * 4 * IZR (Z.of_nat m) / 128))
                     (seq 0 128)) in *.
  assert (H64 : (128 / 2 = 64)%nat) by reflexivity.
  assert (Hbin : forall k, (0 < k < 64)%nat ->
            exists mags,
              compute_fft_magnitudes signal = Ok mags /\
              List.length mags = 64%nat /\
              nth k mags 0 = if (k =? 4)%nat then 1 else 0).
  { intros k Hk.
    destruct (sine_spectrum 128 4 k) as [mags [Hm [Hl Hn]]];
      [rewrite H64; lia | rewrite H64; lia |].
    exists mags. rewrite H64 in Hl. auto. }
  destruct (Hbin 4%nat ltac:(lia)) as [mags [Hm [Hl H4]]].
  exists signal, mags.
  split; [exact Hgen|].
  split; [unfold signal; now rewrite length_map, length_seq|].
  split; [exact Hm|]. split; [exact Hl|].
  split; [exact H4|].
  intros k Hk Hne.
  destruct (Hbin k ltac:(lia)) as [mags' [Hm' [_ Hk']]].
  rewrite Hm in Hm'. injection Hm' as <-.
  rewrite Hk', H4.
  destruct (Nat.eqb_spec k 4); [contradiction | simpl; lra].
Qed.

End SineSpectrum.

(* ================================================================== *)
(** * Further properties of the generators *)












Section SineFacts.
Local Open Scope R_scope.






End SineFacts.

(* ================================================================== *)
(** * Further properties of the plotter *)


Lemma fmt_label_min_length (x : Q) : (9 <= String.length (fmt_label x))%nat.
Proof.
  unfold fmt_label, rjust.
  rewrite !string_length_append, str_repeat_nat_length.
  change (String.length " |") with 2%nat. lia.
Qed.

Lemma row_label_min_length (v_max v_min : Q) (height row : Z) :
  (9 <= String.length (row_label v_max v_min height row))%nat.
Proof.
  unfold row_label.
  destruct (row =? 0)%Z; [apply fmt_label_min_length|].
  destruct (row =? height - 1)%Z; [apply fmt_label_min_length|].
  destruct (row =? height / 2)%Z; [apply fmt_label_min_length|].
  simpl. lia.
Qed.

Lemma axis_line_length (width : Z) :
  String.length (axis_line width) = (9 + Z.to_nat width)%nat.
Proof.
  unfold axis_line, str_repeat.
  now rewrite string_length_append, str_repeat_nat_length.
Qed.

(** X8: the width of the output for any geometry.  For a non-empty
    input and a height other than 1, the axis rule has [9 + width]
    characters and no row is shorter than that; when every value fits
    its label field (strictly between -999.995 and 9999.995) every row
    is a 9-character label followed by [width] plot characters, so all
    rows and the axis rule have the same length. *)
Theorem rows_and_axis_widths (values : list Q) (title : string)
        (width height : Z) :
  values <> [] -> height <> 1%Z ->
  exists rows,
    draw_ascii_graph values title width height
    = Ok (title_line title :: rows ++ [axis_line width]) /\
    String.length (axis_line width) = (9 + Z.to_nat width)%nat /\
    Forall (fun row => (9 + Z.to_nat width <= String.length row)%nat) rows /\
    ((forall x, In x values -> fits_label x) ->
     Forall (content_line (Z.to_nat width)) rows /\
     Forall (fun row => String.length row = String.length (axis_line width))
            rows).
Proof.
  intros Hne Hh. destruct values as [|v vs]; [congruence|].
  eexists. split; [apply draw_ascii_graph_ok; exact Hh|].
  split; [apply axis_line_length|]. split; [|intros Hfit; split].
  - apply Forall_forall. intros line Hline.
    apply in_map_iff in Hline. destruct Hline as [row [<- _]].
    rewrite string_length_append, plot_cells_length, resampled_values_length.
    pose proof (row_label_min_length (max_from v vs) (min_from v vs) height row).
    lia.
  - destruct (max_from_spec vs v) as [Hmax _].
    destruct (min_from_spec vs v) as [Hmin _].
    apply Forall_forall. intros line Hline.
    apply in_map_iff in Hline. destruct Hline as [row [<- _]].
    eexists. eexists. split; [reflexivity|]. split; [|split].
    + apply row_label_length; apply Hfit; assumption.
    + rewrite plot_cells_length. apply resampled_values_length.
    + apply plot_cells_chars.
  - destruct (max_from_spec vs v) as [Hmax _].
    destruct (min_from_spec vs v) as [Hmin _].
    apply Forall_forall. intros line Hline.
    apply in_map_iff in Hline. destruct Hline as [row [<- _]].
    rewrite string_length_append, plot_cells_length, resampled_values_length.
    rewrite row_label_length by (apply Hfit; assumption).
    now rewrite axis_line_length.
Qed.

Lemma rows_and_axis_widths_witness :
  [0; 1 # 2; 1] <> [] /\ 5%Z <> 1%Z /\
  exists rows,
    draw_ascii_graph [0; 1 # 2; 1] "t" 12 5
    = Ok (title_line "t" :: rows ++ [axis_line 12]) /\
    String.length (axis_line 12) = (9 + Z.to_nat 12)%nat /\
    Forall (fun row => (9 + Z.to_nat 12 <= String.length row)%nat) rows /\
    ((forall x, In x [0; 1 # 2; 1] -> fits_label x) ->
     Forall (content_line (Z.to_nat 12)) rows /\
     Forall (fun row => String.length row = String.length (axis_line 12))
            rows).
Proof.
  split; [discriminate|]. split; [lia|].
  apply (rows_and_axis_widths [0; 1 # 2; 1] "t" 12 5); [discriminate | lia].
Defined.

















(** ** Resampling *)

Lemma source_index_plain (n width col : Z) :
  (0 < n)%Z -> (0 <= col < width)%Z ->
  source_index n width col = (col * n / width)%Z
  /\ (0 <= col * n / width <= n - 1)%Z.
Proof.
  intros Hn Hcol.
  assert (H0 : (0 <= col * n / width)%Z) by (apply Z.div_pos; nia).
  assert (H1 : (col * n / width < n)%Z)
    by (apply Z.div_lt_upper_bound; nia).
  unfold source_index. split; lia.
Qed.



(** X13: resampling to the input's own length changes nothing: with
    [width = len(values)] the resampled list is the input itself. *)
Theorem resample_same_width_is_identity (values : list Q) :
  resample values (len values) = Ok values.
Proof.
  destruct values as [|v vs]; [reflexivity|].
  rewrite resample_ok by discriminate. f_equal.
  unfold resampled_values.
  etransitivity; [|apply (map_nth_range (v :: vs) 0)].
  apply map_ext_in. intros col Hcol. apply in_range in Hcol.
  assert (Hn : (0 < len (v :: vs))%Z) by (unfold len; simpl; lia).
  destruct (source_index_plain (len (v :: vs)) (len (v :: vs)) col Hn Hcol)
    as [-> _].
  now rewrite Z.div_mul by lia.
Qed.

(** X14: resampling by a whole factor [k >= 1].  When the width is [k]
    times the input length every sample is shown [k] times in a row
    (column [col] shows sample [col // k]); when the input is [k] times
    as long as the width every [k]-th sample is shown (column [col]
    shows sample [col * k]). *)
Theorem resample_by_whole_factor (values : list Q) (width k : Z) :
  values <> [] -> (1 <= k)%Z ->
  exists resampled,
    resample values width = Ok resampled /\
    (width = (k * len values)%Z ->
     forall col, (0 <= col < width)%Z ->
       nth_error resampled (Z.to_nat col)
       = nth_error values (Z.to_nat (col / k))) /\
    (len values = (k * width)%Z ->
     forall col, (0 <= col < width)%Z ->
       nth_error resampled (Z.to_nat col)
       = nth_error values (Z.to_nat (col * k))).
Proof.
  intros Hne Hk.
  assert (Hn : (0 < len values)%Z).
  { unfold len. destruct values; [congruence | simpl; lia]. }
  exists (resampled_values values width).
  split; [apply resample_ok; exact Hne|].
  assert (Hnth : forall col, (0 <= col < width)%Z ->
            nth_error (resampled_values values width) (Z.to_nat col)
            = nth_error values (Z.to_nat (col * len values / width))).
  { intros col Hcol. unfold resampled_values.
    rewrite nth_error_map_range by exact Hcol.
    destruct (source_index_plain (len values) width col Hn Hcol) as [-> Hb].
    symmetry. apply nth_error_nth'. unfold len in *. lia. }
  split.
  - intros Hw col Hcol. rewrite Hnth by exact Hcol. do 2 f_equal.
    rewrite Hw. rewrite Z.div_mul_cancel_r by lia. reflexivity.
  - intros Hl col Hcol. rewrite Hnth by exact Hcol. do 2 f_equal.
    rewrite Hl. rewrite Z.mul_assoc. apply Z.div_mul. lia.
Qed.

Lemma resample_by_whole_factor_witness :
  [3; 1; 4; 1] <> [] /\ (1 <= 2)%Z /\
  exists resampled,
    resample [3; 1; 4; 1] 8 = Ok resampled /\
    (8%Z = (2 * len [3; 1; 4; 1])%Z ->
     forall col, (0 <= col < 8)%Z ->
       nth_error resampled (Z.to_nat col)
       = nth_error [3; 1; 4; 1] (Z.to_nat (col / 2))) /\
    (len [3; 1; 4; 1] = (2 * 8)%Z ->
     forall col, (0 <= col < 8)%Z ->
       nth_error resampled (Z.to_nat col)
       = nth_error [3; 1; 4; 1] (Z.to_nat (col * 2))).
Proof.
  split; [discriminate|]. split; [lia|].
  apply (resample_by_whole_factor [3; 1; 4; 1] 8 2); [discriminate | lia].
Defined.

(** X15: a plot at least as wide as the input shows every sample: for
    [width >= len(values)], each input sample is read by some column. *)
Theorem wide_plot_shows_every_sample (values : list Q) (width : Z) :
  values <> [] -> (len values <= width)%Z ->
  exists resampled,
    resample values width = Ok resampled /\
    forall j val,
      nth_error values j = Some val ->
      exists col, (0 <= col < width)%Z /\
                  nth_error resampled (Z.to_nat col) = Some val.
Proof.
  intros Hne Hw.
  assert (Hn : (0 < len values)%Z).
  { unfold len. destruct values; [congruence | simpl; lia]. }
  exists (resampled_values values width).
  split; [apply resample_ok; exact Hne|].
  intros j val Hj.
  assert (Hjlt : (j < List.length values)%nat)
    by (apply nth_error_Some; congruence).
  set (n := len values) in *. set (jz := Z.of_nat j).
  assert (Hjz : (0 <= jz < n)%Z) by (unfold jz, n, len; lia).
  set (col := ((jz * width + n - 1) / n)%Z).
  pose proof (Z.div_mod (jz * width + n - 1) n ltac:(lia)) as Hdm.
  pose proof (Z.mod_pos_bound (jz * width + n - 1) n Hn) as Hmod.
  fold col in Hdm.
  assert (Hcol0 : (0 <= col)%Z) by (apply Z.div_pos; nia).
  assert (Hcolw : (col < width)%Z) by nia.
  assert (Hidx : (col * n / width = jz)%Z).
  { symmetry. apply (Z.div_unique_pos _ _ _ (col * n - jz * width)); nia. }
  exists col. split; [lia|].
  unfold resampled_values. fold n. rewrite nth_error_map_range by lia.
  destruct (source_index_plain n width col Hn ltac:(lia)) as [-> _].
  rewrite Hidx. unfold jz. rewrite Nat2Z.id.
  f_equal. apply nth_error_nth. exact Hj.
Qed.

Lemma wide_plot_shows_every_sample_witness :
  [3; 1; 4] <> [] /\ (len [3; 1; 4] <= 5)%Z /\
  exists resampled,
    resample [3; 1; 4] 5 = Ok resampled /\
    forall j val,
      nth_error [3; 1; 4] j = Some val ->
      exists col, (0 <= col < 5)%Z /\
                  nth_error resampled (Z.to_nat col) = Some val.
Proof.
  split; [discriminate|]. split; [unfold len; simpl; lia|].
  apply (wide_plot_shows_every_sample [3; 1; 4] 5);
    [discriminate | unfold len; simpl; lia].
Defined.

(** X16: a plot no wider than the input never shows a sample twice:
    for [width <= n], later columns read strictly later indices. *)
Theorem narrow_plot_reads_increasing_indices (n width col col' : Z) :
  (0 < width)%Z -> (width <= n)%Z ->
  (0 <= col)%Z -> (col < col')%Z -> (col' < width)%Z ->
  exists i i',
    resample_index n width col = Ok i /\
    resample_index n width col' = Ok i' /\
    (i < i')%Z.
Proof.
  intros Hw Hn H0 Hlt Hc.
  destruct (source_index_plain n width col ltac:(lia) ltac:(lia)) as [E1 _].
  destruct (source_index_plain n width col' ltac:(lia) ltac:(lia)) as [E2 _].
  exists (col * n / width)%Z, (col' * n / width)%Z.
  rewrite !resample_index_ok by lia. rewrite E1, E2.
  split; [reflexivity|]. split; [reflexivity|].
  apply Z.lt_le_trans with ((col * n + 1 * width) / width)%Z.
  - rewrite Z.div_add by lia. lia.
  - apply Z.div_le_mono; nia.
Qed.

Lemma narrow_plot_reads_increasing_indices_witness :
  (0 < 70)%Z /\ (70 <= 128)%Z /\ (0 <= 3)%Z /\ (3 < 4)%Z /\ (4 < 70)%Z /\
  exists i i',
    resample_index 128 70 3 = Ok i /\
    resample_index 128 70 4 = Ok i' /\
    (i < i')%Z.
Proof.
  split; [lia|]. split; [lia|]. split; [lia|]. split; [lia|]. split; [lia|].
  apply (narrow_plot_reads_increasing_indices 128 70 3 4); lia.
Defined.

(* ================================================================== *)
(** * Further properties of the spectrum *)

Section SpectrumMore.
Local Open Scope R_scope.

Lemma Cabs_scale (c x y : R) : Cabs (c * x, c * y) = Rabs c * Cabs (x, y).
Proof.
  unfold Cabs. cbn [fst snd].
  replace (c * x * (c * x) + c * y * (c * y))
    with (Rsqr c * (x * x + y * y)) by (unfold Rsqr; ring).
  rewrite sqrt_mult; [|apply Rle_0_sqr | nra].
  now rewrite sqrt_Rsqr_abs.
Qed.

Lemma dft_sum_scale (c : R) (n k : nat) (a : list R) :
  forall m,
    dft_sum n k m (map (Rmult c) a)
    = (c * fst (dft_sum n k m a), c * snd (dft_sum n k m a)).
Proof.
  induction a as [|x a IH]; intros m; simpl.
  - f_equal; ring.
  - rewrite IH. unfold Cadd, dft_term. cbn [fst snd]. f_equal; ring.
Qed.

Lemma double_tail_map_scale (c : R) (l : list R) :
  double_tail (map (Rmult c) l) = map (Rmult c) (double_tail l).
Proof.
  destruct l as [|m0 ms]; [reflexivity|]. simpl. f_equal.
  rewrite !map_map. apply map_ext. intros x. ring.
Qed.

(** X17: the spectrum scales with the signal: multiplying every sample
    by [c] multiplies every magnitude by [|c|] (so negating a signal
    leaves its spectrum unchanged). *)
Theorem spectrum_scales_with_signal (signal mags : list R) (c : R) :
  compute_fft_magnitudes signal = Ok mags ->
  compute_fft_magnitudes (map (Rmult c) signal)
  = Ok (map (Rmult (Rabs c)) mags).
Proof.
  intros H.
  assert (Hne : signal <> []) by (intros ->; discriminate).
  rewrite compute_fft_magnitudes_ok in H by exact Hne.
  injection H as <-.
  rewrite compute_fft_magnitudes_ok
    by (destruct signal; [congruence | discriminate]).
  rewrite length_map. f_equal.
  rewrite <- double_tail_map_scale. f_equal.
  rewrite map_map. apply map_ext. intros k.
  unfold dft_bin. rewrite length_map, dft_sum_scale, Cabs_scale.
  rewrite <- surjective_pairing. unfold Rdiv. ring.
Qed.

Lemma spectrum_scales_with_signal_witness :
  compute_fft_magnitudes [1; 3]
  = Ok (double_tail
          (map (fun k => Cabs (dft_bin [1; 3] k) / INR 2) (seq 0 (2 / 2)))) /\
  compute_fft_magnitudes (map (Rmult (-2)) [1; 3])
  = Ok (map (Rmult (Rabs (-2)))
            (double_tail
               (map (fun k => Cabs (dft_bin [1; 3] k) / INR 2)
                    (seq 0 (2 / 2))))).
Proof.
  split; [reflexivity|].
  apply (spectrum_scales_with_signal [1; 3] _ (-2)). reflexivity.
Defined.

Lemma repeat_as_map_seq (c : R) (n : nat) :
  forall s, repeat c n = map (fun _ => c) (seq s n).
Proof.
  induction n as [|n IH]; intros s; simpl; [reflexivity|].
  f_equal. apply IH.
Qed.

(** X18: a constant signal has only a DC component: for [N >= 2]
    samples all equal to [c], bin 0 is [|c|] and every other bin is
    0. *)
Theorem constant_signal_spectrum (c : R) (N : nat) :
  (2 <= N)%nat ->
  exists mags,
    compute_fft_magnitudes (repeat c N) = Ok mags /\
    List.length mags = (N / 2)%nat /\
    forall k, (k < N / 2)%nat ->
      nth k mags 0 = if (k =? 0)%nat then Rabs c else 0.
Proof.
  intros HN.
  assert (Hhalf : (2 * (N / 2) <= N)%nat) by apply Nat.Div0.mul_div_le.
  assert (Hlen : List.length (repeat c N) = N) by apply repeat_length.
  assert (Hne : repeat c N <> []).
  { intros E. rewrite E in Hlen. simpl in Hlen. lia. }
  assert (HNR : 0 < INR N) by (apply lt_0_INR; lia).
  eexists. split; [apply compute_fft_magnitudes_ok; exact Hne|].
  rewrite Hlen. split.
  - now rewrite double_tail_length, length_map, length_seq.
  - intros k Hk.
    pose proof (spectrum_nth (repeat c N) k) as H. rewrite Hlen in H.
    cbv zeta in H. rewrite H by exact Hk. clear H.
    destruct (Nat.eqb_spec k 0) as [->|Hk0].
    + unfold dft_bin. rewrite dft_sum_bin_0, Cabs_real.
      assert (Hsum : sum_list (repeat c N) = INR N * c).
      { clear. induction N as [|N IH]; [simpl; ring|].
        rewrite S_INR.
        change (sum_list (repeat c (S N))) with (c + sum_list (repeat c N)).
        rewrite IH. ring. }
      rewrite Hsum, Rabs_mult, (Rabs_pos_eq (INR N)) by lra.
      field. lra.
    + unfold dft_bin. rewrite Hlen.
      rewrite (repeat_as_map_seq c N 0), dft_sum_map_seq.
      rewrite (Rsum_ext _ (fun m => c * cos (INR m * (2 * PI * INR k / INR N)))).
      2:{ intros m _. cbn [Nat.add]. do 2 f_equal. field. lra. }
      rewrite (Rsum_ext (fun i => c * sin _)
                        (fun m => c * sin (INR m * (2 * PI * INR k / INR N)))).
      2:{ intros m _. cbn [Nat.add]. do 2 f_equal. field. lra. }
      rewrite !Rsum_scal, cos_sum_root, sin_sum_root by lia.
      replace (c * 0, - (c * 0)) with (0, 0) by (f_equal; ring).
      rewrite Cabs_real, Rabs_R0. field. lra.
Qed.

Lemma constant_signal_spectrum_witness :
  (2 <= 8)%nat /\
  exists mags,
    compute_fft_magnitudes (repeat 5 8) = Ok mags /\
    List.length mags = (8 / 2)%nat /\
    forall k, (k < 8 / 2)%nat ->
      nth k mags 0 = if (k =? 0)%nat then Rabs 5 else 0.
Proof.
  split; [lia|]. apply (constant_signal_spectrum 5 8). lia.
Defined.

(** ** The peak report *)

Lemma Rlist_max_spec (x : R) (xs : list R) :
  exists m,
    Rlist_max (x :: xs) = Ok m /\ In m (x :: xs) /\
    forall y, In y (x :: xs) -> y <= m.
Proof.
  unfold Rlist_max. eexists. split; [reflexivity|].
  revert x. induction xs as [|z xs IH]; intros x; simpl.
  - split; [left; reflexivity|]. intros y [<-|[]]. lra.
  - destruct (Rlt_dec x z) as [Hlt|Hge].
    + destruct (IH z) as [Hin Hle]. split; [right; exact Hin|].
      intros y [<-|Hy]; [|apply Hle; exact Hy].
      apply Rle_trans with z; [lra | apply Hle; left; reflexivity].
    + destruct (IH x) as [Hin Hle]. split.
      * destruct Hin as [Hin|Hin]; [left; exact Hin | right; right; exact Hin].
      * intros y [<-|[<-|Hy]].
        -- apply Hle. left. reflexivity.
        -- apply Rle_trans with x; [lra | apply Hle; left; reflexivity].
        -- apply Hle. right. exact Hy.
Qed.

Lemma index_from_spec (x : R) (l : list R) :
  In x l ->
  forall s,
    exists i,
      index_from x l s = Ok (s + i)%nat /\
      (i < List.length l)%nat /\
      nth i l 0 = x /\
      forall j, (j < i)%nat -> nth j l 0 <> x.
Proof.
  induction l as [|y l IH]; intros Hin s; [contradiction|].
  simpl. destruct (Req_EM_T y x) as [E|E].
  - exists 0%nat. rewrite Nat.add_0_r.
    split; [reflexivity|]. split; [simpl; lia|]. split; [exact E|].
    intros j Hj. lia.
  - destruct Hin as [Hin|Hin]; [contradiction|].
    destruct (IH Hin (S s)) as [i [Hi [Hlen [Hnth Hfirst]]]].
    exists (S i). rewrite Nat.add_succ_r.
    split; [exact Hi|]. split; [simpl; lia|]. split; [exact Hnth|].
    intros [|j] Hj; [exact E | apply Hfirst; lia].
Qed.

Lemma peak_bin_first_max (m0 m1 : R) (ms : list R) :
  let mags := m0 :: m1 :: ms in
  exists i m,
    peak_bin mags = Ok i /\
    Rlist_max (tl mags) = Ok m /\
    (i < List.length mags)%nat /\
    nth i mags 0 = m /\
    (forall k, (1 <= k < List.length mags)%nat -> nth k mags 0 <= m) /\
    (exists k, (1 <= k < List.length mags)%nat /\ nth k mags 0 = m) /\
    (forall j, (j < i)%nat -> nth j mags 0 <> m).
Proof.
  intros mags.
  destruct (Rlist_max_spec m1 ms) as [m [Hm [Hin Hle]]].
  assert (Hin' : In m mags) by (right; exact Hin).
  destruct (index_from_spec m mags Hin' 0%nat) as [i [Hi [Hlen [Hnth Hfirst]]]].
  exists i, m. unfold peak_bin. cbn [tl]. fold mags.
  change (tl mags) with (m1 :: ms). rewrite Hm. cbn [bind].
  split; [exact Hi|]. split; [reflexivity|]. split; [exact Hlen|].
  split; [exact Hnth|]. split; [|split; [|exact Hfirst]].
  - intros [|k] Hk; [lia|]. apply Hle.
    change (nth (S k) mags 0) with (nth k (m1 :: ms) 0).
    apply nth_In. unfold mags in Hk. simpl in Hk |- *. lia.
  - apply (In_nth _ _ 0) in Hin. destruct Hin as [k [Hk Hnk]].
    exists (S k). split; [unfold mags; simpl in Hk |- *; lia | exact Hnk].
Qed.

(** X19: the peak report of [main].  With fewer than two bins the
    expression [magnitudes.index(max(magnitudes[1:]))] raises
    [ValueError]; otherwise it returns the first position, counted from
    bin 0, whose magnitude equals the largest of bins 1 and up: so the
    reported bin holds that maximum, and it is bin 0 itself when the DC
    magnitude equals it. *)
Theorem peak_bin_reports_first_maximum (mags : list R) :
  ((List.length mags < 2)%nat -> peak_bin mags = Raise ValueError) /\
  ((2 <= List.length mags)%nat ->
   exists i m,
     peak_bin mags = Ok i /\
     Rlist_max (tl mags) = Ok m /\
     (i < List.length mags)%nat /\
     nth i mags 0 = m /\
     (forall k, (1 <= k < List.length mags)%nat -> nth k mags 0 <= m) /\
     (forall j, (j < i)%nat -> nth j mags 0 <> m) /\
     (nth 0 mags 0 = m -> i = 0%nat)).
Proof.
  split.
  - intros H. destruct mags as [|m0 [|m1 ms]]; [reflexivity | reflexivity|].
    simpl in H. lia.
  - intros H. destruct mags as [|m0 [|m1 ms]]; [simpl in H; lia | simpl in H; lia|].
    destruct (peak_bin_first_max m0 m1 ms)
      as [i [m [Hp [Hm [Hlen [Hnth [Hle [_ Hfirst]]]]]]]].
    exists i, m. repeat (split; [assumption|]).
    intros H0. destruct i as [|i]; [reflexivity|].
    exfalso. apply (Hfirst 0%nat); [lia | exact H0].
Qed.





(** ** A bound on the magnitudes *)

Lemma Cabs_triangle (a b : C) : Cabs (Cadd a b) <= Cabs a + Cabs b.
Proof.
  destruct a as [a1 a2], b as [b1 b2]. unfold Cabs, Cadd. cbn [fst snd].
  set (A := a1 * a1 + a2 * a2). set (B := b1 * b1 + b2 * b2).
  assert (HA : 0 <= A) by (unfold A; nra).
  assert (HB : 0 <= B) by (unfold B; nra).
  pose proof (sqrt_pos A) as Hu. pose proof (sqrt_pos B) as Hv.
  pose proof (sqrt_sqrt A HA) as Hu2. pose proof (sqrt_sqrt B HB) as Hv2.
  set (u := sqrt A) in *. set (v := sqrt B) in *.
  rewrite <- (sqrt_square (u + v)) by lra.
  apply sqrt_le_1_alt.
  assert (Hcs : (a1 * b1 + a2 * b2) * (a1 * b1 + a2 * b2) <= (u * v) * (u * v)).
  { replace (u * v * (u * v)) with ((u * u) * (v * v)) by ring.
    rewrite Hu2, Hv2. unfold A, B.
    pose proof (Rle_0_sqr (a1 * b2 - a2 * b1)) as H. unfold Rsqr in H. lra. }
  assert (Huv : 0 <= u * v) by (apply Rmult_le_pos; assumption).
  assert (Hdot : a1 * b1 + a2 * b2 <= u * v).
  { destruct (Rle_lt_dec (a1 * b1 + a2 * b2) (u * v)) as [|Hgt]; [assumption|].
    exfalso. nra. }
  unfold A, B in Hu2, Hv2. nra.
Qed.

Lemma Cabs_dft_term (n k m : nat) (x : R) : Cabs (dft_term n k m x) = Rabs x.
Proof.
  unfold dft_term, Cabs. cbn [fst snd].
  set (t := 2 * PI * INR m * INR k / INR n).
  replace (x * cos t * (x * cos t) + - (x * sin t) * - (x * sin t))
    with (Rsqr x * (Rsqr (sin t) + Rsqr (cos t))) by (unfold Rsqr; ring).
  rewrite sin2_cos2, Rmult_1_r. apply sqrt_Rsqr_abs.
Qed.

Lemma Cabs_dft_sum (n k : nat) (a : list R) :
  forall m, Cabs (dft_sum n k m a) <= sum_list (map Rabs a).
Proof.
  induction a as [|x a IH]; intros m.
  - simpl. rewrite Cabs_real, Rabs_R0. lra.
  - cbn [dft_sum map].
    change (sum_list (Rabs x :: map Rabs a))
      with (Rabs x + sum_list (map Rabs a)).
    eapply Rle_trans; [apply Cabs_triangle|].
    rewrite Cabs_dft_term. specialize (IH (S m)). lra.
Qed.

(** X21: no magnitude exceeds twice the mean absolute value of the
    signal (and bin 0 does not exceed the mean absolute value). *)
Theorem magnitudes_bounded_by_mean_abs (signal : list R) :
  signal <> [] ->
  exists mags,
    compute_fft_magnitudes signal = Ok mags /\
    forall k, (k < List.length mags)%nat ->
      nth k mags 0
      <= (if (k =? 0)%nat then 1 else 2)
         * (sum_list (map Rabs signal) / INR (List.length signal)).
Proof.
  intros Hne.
  assert (Hn : (0 < List.length signal)%nat).
  { destruct signal; [congruence | simpl; lia]. }
  assert (HnR : 0 < INR (List.length signal)) by (apply lt_0_INR; exact Hn).
  eexists. split; [apply compute_fft_magnitudes_ok; exact Hne|].
  intros k Hk.
  rewrite double_tail_length, length_map, length_seq in Hk.
  rewrite (spectrum_nth signal k Hk).
  pose proof (Cabs_dft_sum (List.length signal) k signal 0) as Hb.
  fold (dft_bin signal k) in Hb.
  apply Rmult_le_compat_l; [destruct (k =? 0)%nat; lra|].
  unfold Rdiv. apply Rmult_le_compat_r; [|exact Hb].
  left. apply Rinv_0_lt_compat. exact HnR.
Qed.

Lemma magnitudes_bounded_by_mean_abs_witness :
  [1; -3; 2; 0] <> [] /\
  exists mags,
    compute_fft_magnitudes [1; -3; 2; 0] = Ok mags /\
    forall k, (k < List.length mags)%nat ->
      nth k mags 0
      <= (if (k =? 0)%nat then 1 else 2)
         * (sum_list (map Rabs [1; -3; 2; 0])
            / INR (List.length [1; -3; 2; 0])).
Proof.
  split; [discriminate|].
  apply (magnitudes_bounded_by_mean_abs [1; -3; 2; 0]). discriminate.
Defined.

End SpectrumMore.

(* ================================================================== *)
(** * Symmetries *)









